(** * bt2mqtt: the BLE session manager, the blind protocol engine and the bridge

    A shallow embedding of the parts of the TypeScript sources that carry the
    decoding, validation, queueing and retry logic:

    - [libraries/msblinds/src/Constants.ts]   (module [Constants])
    - [libraries/msblinds/src/Blind.ts]       (module [Blind])
    - [libraries/bluetooth/src/DeviceManager.ts] (module [DeviceManager])
    - [services/bt2mqtt/src/Application.ts]   (module [Application])

    JavaScript numbers that only ever hold integers are embedded as [Z];
    the three sensor readings obtained by a division are binary64 floats.
    Node's [Buffer] is a [list byte]; its accessors that raise [RangeError]
    return [None]. *)

From Stdlib Require Import ZArith List String Ascii Lia Bool.
From Stdlib.Strings Require Import Byte.
From Stdlib Require Import Floats Uint63.
From Stdlib Require Import HexadecimalString.
From stdpp Require Import gmap strings list.
Import ListNotations.

Local Open Scope Z_scope.

(** ** The JavaScript runtime pieces the sources rely on *)

Module JS.

(** ECMAScript [ToInt32]: reduce modulo 2^32 and read as two's complement. *)
Definition ToInt32 (z : Z) : Z :=
  let m := z mod 2 ^ 32 in
  if 2 ^ 31 <=? m then m - 2 ^ 32 else m.

(** The binary [&] operator: both operands go through [ToInt32], the
    result is again a signed 32-bit integer. *)
Definition band (a b : Z) : Z :=
  ToInt32 (Z.land (ToInt32 a) (ToInt32 b)).

(** [ToUint8], as applied to every element by [Buffer.from(array)]. *)
Definition ToUint8 (z : Z) : Z := z mod 256.

(** [String.prototype.toLowerCase] on one code unit (ASCII letters). *)
Definition lower_ascii (c : ascii) : ascii :=
  let n := N_of_ascii c in
  if ((65 <=? n) && (n <=? 90))%N then ascii_of_N (n + 32) else c.

Fixpoint toLowerCase (s : string) : string :=
  match s with
  | EmptyString => EmptyString
  | String c r => String (lower_ascii c) (toLowerCase r)
  end.

(** [String.prototype.slice(n)] for a non-negative [n]. *)
Fixpoint slice (n : nat) (s : string) : string :=
  match n, s with
  | O, _ => s
  | S _, EmptyString => EmptyString
  | S k, String _ r => slice k r
  end.

(** [String.prototype.includes]. *)
Fixpoint startsWith (p s : string) : bool :=
  match p, s with
  | EmptyString, _ => true
  | String a p', String b s' => Ascii.eqb a b && startsWith p' s'
  | String _ _, EmptyString => false
  end.

Fixpoint includes (s p : string) : bool :=
  startsWith p s ||
  match s with
  | EmptyString => false
  | String _ r => includes r p
  end.

End JS.

(** ** Node's Buffer *)

Module Buffer.

Definition t := list byte.

Definition u8 (b : byte) : Z := Z.of_N (Byte.to_N b).

Definition of_u8 (z : Z) : byte :=
  match Byte.of_N (Z.to_N (JS.ToUint8 z)) with
  | Some b => b
  | None => x00
  end.

(** [buf[i]]: [undefined] out of range. *)
Definition get (buf : t) (i : nat) : option Z := u8 <$> nth_error buf i.

(** [buf.readUInt8(offset)]; [None] stands for the [RangeError]. *)
Definition readUInt8 (buf : t) (offset : nat) : option Z := get buf offset.

(** [buf.readUInt16LE(offset)]: [first + last * 2 ** 8]. *)
Definition readUInt16LE (buf : t) (offset : nat) : option Z :=
  match get buf offset, get buf (offset + 1) with
  | Some first, Some last => Some (first + last * 2 ^ 8)
  | _, _ => None
  end.

(** [buf.readUInt32LE(offset)]:
    [first + b1 * 2 ** 8 + b2 * 2 ** 16 + last * 2 ** 24]. *)
Definition readUInt32LE (buf : t) (offset : nat) : option Z :=
  match get buf offset, get buf (offset + 1),
        get buf (offset + 2), get buf (offset + 3) with
  | Some first, Some b1, Some b2, Some last =>
      Some (first + b1 * 2 ^ 8 + b2 * 2 ^ 16 + last * 2 ^ 24)
  | _, _, _, _ => None
  end.

(** [Buffer.from(array)]. *)
Definition from_array (l : list Z) : t := map of_u8 l.

Definition hex_digit (n : N) : ascii :=
  if (n <? 10)%N then ascii_of_N (48 + n) else ascii_of_N (87 + n).

(** [buf.toString("hex")]: two lower-case digits per byte. *)
Fixpoint toString_hex (buf : t) : string :=
  match buf with
  | [] => EmptyString
  | b :: r =>
      let n := Byte.to_N b in
      String (hex_digit (n / 16)) (String (hex_digit (n mod 16)) (toString_hex r))
  end.

Definition hex_value (c : ascii) : option N :=
  let n := N_of_ascii c in
  if ((48 <=? n) && (n <=? 57))%N then Some (n - 48)%N
  else if ((97 <=? n) && (n <=? 102))%N then Some (n - 87)%N
  else if ((65 <=? n) && (n <=? 70))%N then Some (n - 55)%N
  else None.

(** [Buffer.from(s, "hex")]: decodes pairs of hex digits, stops at the first
    pair that is not hexadecimal and ignores a trailing single character. *)
Fixpoint from_hex (s : string) : t :=
  match s with
  | String a (String b r) =>
      match hex_value a, hex_value b with
      | Some h, Some l => of_u8 (Z.of_N (16 * h + l)) :: from_hex r
      | _, _ => []
      end
  | _ => []
  end.

End Buffer.

(** ** Constants.ts *)

Module Constants.

Definition MIN_ANGLE : Z := 0.
Definition MAX_ANGLE : Z := 200.

Definition STATUS_COMMAND_IDENTIFY : Z := 0x08.

Definition IS_NORMAL : Z := 0x00000000.
Definition IS_REVERSED : Z := 0x00000001.
Definition IS_BONDING : Z := 0x00000002.
Definition IS_CALIBRATED : Z := 0x00010000.
Definition HAS_SOLAR : Z := 0x00020000.
Definition IS_CHARGING_SOLAR : Z := 0x00040000.
Definition IS_CHARGING_USB : Z := 0x00080000.
Definition IS_TIME_VALID : Z := 0x00100000.
Definition UNDER_VOLTAGE_LOCKOUT : Z := 0x00200000.
Definition IS_OVER_TEMP : Z := 0x00400000.
Definition TEMP_OVERRIDE : Z := 0x00800000.
Definition IS_PASSKEY_VALID : Z := 0x80000000.

End Constants.

(** ** Commands handed to the device manager

  [IBluetoothCommand.command] is a closure.  The closures built in this
  repository perform one GATT operation on a characteristic slot of the
  blind (dereferenced when the closure runs), or re-enter
  [onDeviceAdded]. *)

Module Command.

Inductive Slot : Set :=
| AckSlot | AngleSlot | NameSlot | PasskeySlot
| SensorSlot | StatusSlot | VersionInfoSlot.

Inductive body : Type :=
| WriteValueWithResponse (slot : Slot) (value : Buffer.t)
| ReadValue (slot : Slot) (offset : Z)
| OnDeviceAdded (address : string).

Record IBluetoothCommand : Type := {
  command : body;
  maxRetries : Z;
  name : string
}.

Record IQueuedBluetoothCommand : Type := {
  base : IBluetoothCommand;
  retryCount : Z
}.

End Command.

(** ** Blind.ts *)

Module Blind.
Import Command.

Record IBlindSensorState : Type := {
  batteryCharge : Z;
  batteryPercentage : Z;
  batteryTemperature : float;
  batteryVoltage : Z;
  interiorTemperature : float;
  illuminance : float;
  solarPanelVoltage : Z
}.

Record IBlindStatus : Type := {
  hasSolar : bool;
  isBonding : bool;
  isCalibrated : bool;
  isSolarCharging : bool;
  isUsbCharging : bool;
  isOverTemperature : bool;
  isPaired : bool;
  isPasskeyInvalid : bool;
  isPasskeyValid : bool;
  isReversed : bool;
  isTimeValid : bool;
  isUnderVoltageLockout : bool;
  tempOverride : bool
}.

(** The JavaScript [/] on an integer read from the buffer and the
    literal [10]: a binary64 division. *)
Definition div10 (z : Z) : float :=
  (PrimFloat.of_uint63 (Uint63.of_Z z) / 10)%float.

Definition parseBlindSensors (sensorState : Buffer.t) : option IBlindSensorState :=
  p ← Buffer.readUInt8 sensorState 0;
  v ← Buffer.readUInt16LE sensorState 2;
  c ← Buffer.readUInt16LE sensorState 4;
  s ← Buffer.readUInt16LE sensorState 6;
  it ← Buffer.readUInt16LE sensorState 8;
  bt ← Buffer.readUInt16LE sensorState 10;
  il ← Buffer.readUInt16LE sensorState 12;
  Some {| batteryPercentage := p;
          batteryVoltage := v;
          batteryCharge := c;
          solarPanelVoltage := s;
          interiorTemperature := div10 it;
          batteryTemperature := div10 bt;
          illuminance := div10 il |}.

(** [(status & mask) === mask] *)
Definition has_flag (status mask : Z) : bool :=
  JS.band status mask =? mask.

Definition parseBlindStatus (buffer : Buffer.t) : option IBlindStatus :=
  status ← Buffer.readUInt32LE buffer 0;
  Some {| hasSolar := has_flag status Constants.HAS_SOLAR;
          isBonding := has_flag status Constants.IS_BONDING;
          isCalibrated := has_flag status Constants.IS_CALIBRATED;
          isSolarCharging := has_flag status Constants.IS_CHARGING_SOLAR;
          isUsbCharging := has_flag status Constants.IS_CHARGING_USB;
          isOverTemperature := has_flag status Constants.IS_OVER_TEMP;
          isPaired := false;
          isPasskeyInvalid := false;
          isPasskeyValid := has_flag status Constants.IS_PASSKEY_VALID;
          isReversed := has_flag status Constants.IS_REVERSED;
          isTimeValid := has_flag status Constants.IS_TIME_VALID;
          tempOverride := has_flag status Constants.TEMP_OVERRIDE;
          isUnderVoltageLockout := has_flag status Constants.UNDER_VOLTAGE_LOCKOUT |}.

(** The fields of a [Blind] instance that the angle and unlock logic
    reads or writes.  A characteristic handle is the UUID it was bound
    from; the unlock timer is either armed or not. *)
Record state : Type := {
  angle : Z;
  isUnlocked : bool;
  passkey : option string;
  angleCharacteristic : option string;
  passkeyCharacteristic : option string;
  _blindPasskey : string;
  _maxUnlockRetries : Z;
  _unlockTimer : bool;
  _unlockAttempts : Z
}.

(** Field initialisers and constructor. *)
Definition new (passkey0 : string) (maxUnlockRetries : Z) : state :=
  {| angle := -1; isUnlocked := false; passkey := None;
     angleCharacteristic := None; passkeyCharacteristic := None;
     _blindPasskey := passkey0; _maxUnlockRetries := maxUnlockRetries;
     _unlockTimer := false; _unlockAttempts := 0 |}.

Definition set_angle (st : state) (a : Z) : state :=
  {| angle := a; isUnlocked := isUnlocked st; passkey := passkey st;
     angleCharacteristic := angleCharacteristic st;
     passkeyCharacteristic := passkeyCharacteristic st;
     _blindPasskey := _blindPasskey st; _maxUnlockRetries := _maxUnlockRetries st;
     _unlockTimer := _unlockTimer st; _unlockAttempts := _unlockAttempts st |}.

Definition set_isUnlocked (st : state) (b : bool) : state :=
  {| angle := angle st; isUnlocked := b; passkey := passkey st;
     angleCharacteristic := angleCharacteristic st;
     passkeyCharacteristic := passkeyCharacteristic st;
     _blindPasskey := _blindPasskey st; _maxUnlockRetries := _maxUnlockRetries st;
     _unlockTimer := _unlockTimer st; _unlockAttempts := _unlockAttempts st |}.

Definition set_passkey (st : state) (p : option string) : state :=
  {| angle := angle st; isUnlocked := isUnlocked st; passkey := p;
     angleCharacteristic := angleCharacteristic st;
     passkeyCharacteristic := passkeyCharacteristic st;
     _blindPasskey := _blindPasskey st; _maxUnlockRetries := _maxUnlockRetries st;
     _unlockTimer := _unlockTimer st; _unlockAttempts := _unlockAttempts st |}.

Definition set_characteristics (st : state) (a p : option string) : state :=
  {| angle := angle st; isUnlocked := isUnlocked st; passkey := passkey st;
     angleCharacteristic := a; passkeyCharacteristic := p;
     _blindPasskey := _blindPasskey st; _maxUnlockRetries := _maxUnlockRetries st;
     _unlockTimer := _unlockTimer st; _unlockAttempts := _unlockAttempts st |}.

Definition set_unlockTimer (st : state) (t : bool) : state :=
  {| angle := angle st; isUnlocked := isUnlocked st; passkey := passkey st;
     angleCharacteristic := angleCharacteristic st;
     passkeyCharacteristic := passkeyCharacteristic st;
     _blindPasskey := _blindPasskey st; _maxUnlockRetries := _maxUnlockRetries st;
     _unlockTimer := t; _unlockAttempts := _unlockAttempts st |}.

Definition set_unlockAttempts (st : state) (n : Z) : state :=
  {| angle := angle st; isUnlocked := isUnlocked st; passkey := passkey st;
     angleCharacteristic := angleCharacteristic st;
     passkeyCharacteristic := passkeyCharacteristic st;
     _blindPasskey := _blindPasskey st; _maxUnlockRetries := _maxUnlockRetries st;
     _unlockTimer := _unlockTimer st; _unlockAttempts := n |}.

(** What a method does to the outside: events it emits, commands it
    hands to [deviceManager.executeCommand], an exception it raises. *)
Inductive Error : Type :=
| InvalidAngleValue (value : Z)
| RangeError.

Inductive Effect : Type :=
| Emit_angle_changed (angle : Z)
| Emit_passkey_changed (passkey : string)
| Emit_unlocked
| Emit_unlock_failed
| ExecuteCommand (c : IBluetoothCommand)
| Throw (e : Error).

Definition isValidAngle (value : Z) : bool :=
  (Constants.MIN_ANGLE <=? value) && (value <=? Constants.MAX_ANGLE).

(** [setAngle(value)], for an integer [value]; what becomes of the queued
    command is the business of the device manager. *)
Definition setAngle (st : state) (value : Z) : list Effect :=
  if negb (isValidAngle value) then [Throw (InvalidAngleValue value)]
  else
    match angleCharacteristic st with
    | Some _ =>
        [ExecuteCommand
           {| command := WriteValueWithResponse AngleSlot (Buffer.from_array [value]);
              name := "setAngle";
              maxRetries := 5 |}]
    | None => []
    end.

(** The string transformation inside the [setPasskey] command. *)
Definition encodePasskey (passkey0 : string) : string :=
  if (String.length passkey0 =? 12)%nat then passkey0 +:+ "01"
  else JS.slice 2 passkey0 +:+ "01".

Definition setPasskey (st : state) : list Effect :=
  match passkeyCharacteristic st with
  | Some _ =>
      [ExecuteCommand
         {| command := WriteValueWithResponse PasskeySlot
                         (Buffer.from_hex (encodePasskey (_blindPasskey st)));
            name := "setPasskey";
            maxRetries := 5 |}]
  | None => []
  end.

Definition _clearUnlockTimer (st : state) : state :=
  if _unlockTimer st then set_unlockTimer st false else st.

Definition onAngleChanged (st : state) (buffer : Buffer.t) : state * list Effect :=
  match Buffer.readUInt8 buffer 0 with
  | None => (st, [Throw RangeError])
  | Some angle0 =>
      if negb (isValidAngle angle0) then (set_angle st (-1), [])
      else if negb (angle0 =? angle st)
           then (set_angle st angle0, [Emit_angle_changed angle0])
           else (st, [])
  end.

(** JavaScript truthiness of a string. *)
Definition truthy (s : string) : bool :=
  negb (String.eqb s "").

Definition onPasskeyChanged (st : state) (buffer : Buffer.t) : state * list Effect :=
  let passkey0 := Buffer.toString_hex buffer in
  if negb (bool_decide (Some passkey0 = passkey st)) then
    let st1 := set_passkey st (Some passkey0) in
    if truthy passkey0 &&
       String.eqb (JS.toLowerCase passkey0)
                  (JS.toLowerCase (_blindPasskey st1) +:+ "00")
    then
      (_clearUnlockTimer (set_unlockAttempts (set_isUnlocked st1 true) 0),
       [Emit_passkey_changed passkey0; Emit_unlocked])
    else
      (set_isUnlocked st1 false, [Emit_passkey_changed passkey0])
  else (st, []).

(** [unlock], up to its first suspension: the passkey write is handed to
    the queue synchronously.  What follows the [await]s (the passkey read
    and [_startUnlockTimerIfLocked]) happens at a later turn of the event
    loop and is a separate input below. *)
Definition unlock (st : state) : state * list Effect :=
  if _unlockAttempts st <? _maxUnlockRetries st then
    let st1 := set_isUnlocked (set_unlockAttempts st (_unlockAttempts st + 1)) false in
    (st1, setPasskey st1)
  else
    (_clearUnlockTimer st, [Emit_unlock_failed]).

Definition getPasskeyCommand : IBluetoothCommand :=
  {| command := ReadValue PasskeySlot 0; name := "getPasskey"; maxRetries := 5 |}.

Definition _startUnlockTimerIfLocked (st : state) : state :=
  if negb (isUnlocked st) && negb (_unlockTimer st)
     && (_unlockAttempts st <? _maxUnlockRetries st)
  then set_unlockTimer st true
  else st.

Definition _disconnect (st : state) : state :=
  set_characteristics
    (set_unlockAttempts (set_isUnlocked (_clearUnlockTimer st) false) 0)
    None None.

Definition ANGLE_CHARACTERISTIC_UUID : string := "00001403-1212-efde-1600-785feabcd123".
Definition PASSKEY_CHARACTERISTIC_UUID : string := "00001409-1212-efde-1600-785feabcd123".

(** One iteration of the binding loop of [onParentConnect]. *)
Definition bindCharacteristic (st : state) (characteristicId : string) : state :=
  if String.eqb characteristicId ANGLE_CHARACTERISTIC_UUID
  then set_characteristics st (Some characteristicId) (passkeyCharacteristic st)
  else if String.eqb characteristicId PASSKEY_CHARACTERISTIC_UUID
  then set_characteristics st (angleCharacteristic st) (Some characteristicId)
  else st.

(** [onParentConnect] on a successful service scan: reset the lock,
    bind every characteristic found, attempt to unlock. *)
Definition onParentConnect (st : state) (characteristics : list string)
  : state * list Effect :=
  unlock (fold_left bindCharacteristic characteristics (set_isUnlocked st false)).

(** Everything that can happen to a blind, in any order. *)
Inductive Input : Type :=
| ParentConnect (characteristics : list string)
| AngleNotification (buffer : Buffer.t)
| PasskeyNotification (buffer : Buffer.t)
| SetAngle (value : Z)
| UnlockTimerTick
| UnlockSettled
| Disconnect.

Definition step (st : state) (i : Input) : state * list Effect :=
  match i with
  | ParentConnect cs => onParentConnect st cs
  | AngleNotification b => onAngleChanged st b
  | PasskeyNotification b => onPasskeyChanged st b
  | SetAngle v => (st, setAngle st v)
  | UnlockTimerTick => if _unlockTimer st then unlock st else (st, [])
  | UnlockSettled => (_startUnlockTimerIfLocked st, [])
  | Disconnect => (_disconnect st, [])
  end.

Fixpoint run (st : state) (tr : list Input) : state * list Effect :=
  match tr with
  | [] => (st, [])
  | i :: tr' =>
      let '(st1, e1) := step st i in
      let '(st2, e2) := run st1 tr' in
      (st2, e1 ++ e2)
  end.

End Blind.

(** ** DeviceManager.ts *)

Module DeviceManager.
Import Command.

(** The instance fields used by the command pump and by the reconnect
    policy.  [adapter] holds [adapter.availableDeviceUuids] when an adapter
    is set.  Three components record what is pending outside the object:
    [awaiting] holds the queue items of the [dequeue] calls suspended at
    [await queueItem.command()], [immediates] counts the [setImmediate]
    callbacks not yet run, [discoveryRounds] counts the calls of
    [waitUntilDevicesFound]. *)
Record state : Type := {
  bluetoothCommandQueue : list IQueuedBluetoothCommand;
  isDisposed : bool;
  isExecuting : bool;
  maxConnectRetries : Z;
  _connectRetryCounts : gmap string Z;
  adapter : option (list string);
  awaiting : list IQueuedBluetoothCommand;
  immediates : nat;
  discoveryRounds : nat
}.

Definition new (maxConnectRetries0 : Z) (adapter0 : option (list string)) : state :=
  {| bluetoothCommandQueue := []; isDisposed := false; isExecuting := false;
     maxConnectRetries := maxConnectRetries0; _connectRetryCounts := ∅;
     adapter := adapter0; awaiting := []; immediates := 0; discoveryRounds := 0 |}.

Definition set_queue (s : state) (q : list IQueuedBluetoothCommand) : state :=
  {| bluetoothCommandQueue := q; isDisposed := isDisposed s;
     isExecuting := isExecuting s; maxConnectRetries := maxConnectRetries s;
     _connectRetryCounts := _connectRetryCounts s; adapter := adapter s;
     awaiting := awaiting s; immediates := immediates s;
     discoveryRounds := discoveryRounds s |}.

Definition set_isDisposed (s : state) (b : bool) : state :=
  {| bluetoothCommandQueue := bluetoothCommandQueue s; isDisposed := b;
     isExecuting := isExecuting s; maxConnectRetries := maxConnectRetries s;
     _connectRetryCounts := _connectRetryCounts s; adapter := adapter s;
     awaiting := awaiting s; immediates := immediates s;
     discoveryRounds := discoveryRounds s |}.

Definition set_isExecuting (s : state) (b : bool) : state :=
  {| bluetoothCommandQueue := bluetoothCommandQueue s; isDisposed := isDisposed s;
     isExecuting := b; maxConnectRetries := maxConnectRetries s;
     _connectRetryCounts := _connectRetryCounts s; adapter := adapter s;
     awaiting := awaiting s; immediates := immediates s;
     discoveryRounds := discoveryRounds s |}.

Definition set_connectRetryCounts (s : state) (m : gmap string Z) : state :=
  {| bluetoothCommandQueue := bluetoothCommandQueue s; isDisposed := isDisposed s;
     isExecuting := isExecuting s; maxConnectRetries := maxConnectRetries s;
     _connectRetryCounts := m; adapter := adapter s;
     awaiting := awaiting s; immediates := immediates s;
     discoveryRounds := discoveryRounds s |}.

Definition set_awaiting (s : state) (l : list IQueuedBluetoothCommand) : state :=
  {| bluetoothCommandQueue := bluetoothCommandQueue s; isDisposed := isDisposed s;
     isExecuting := isExecuting s; maxConnectRetries := maxConnectRetries s;
     _connectRetryCounts := _connectRetryCounts s; adapter := adapter s;
     awaiting := l; immediates := immediates s;
     discoveryRounds := discoveryRounds s |}.

Definition set_immediates (s : state) (n : nat) : state :=
  {| bluetoothCommandQueue := bluetoothCommandQueue s; isDisposed := isDisposed s;
     isExecuting := isExecuting s; maxConnectRetries := maxConnectRetries s;
     _connectRetryCounts := _connectRetryCounts s; adapter := adapter s;
     awaiting := awaiting s; immediates := n;
     discoveryRounds := discoveryRounds s |}.

Definition set_discoveryRounds (s : state) (n : nat) : state :=
  {| bluetoothCommandQueue := bluetoothCommandQueue s; isDisposed := isDisposed s;
     isExecuting := isExecuting s; maxConnectRetries := maxConnectRetries s;
     _connectRetryCounts := _connectRetryCounts s; adapter := adapter s;
     awaiting := awaiting s; immediates := immediates s;
     discoveryRounds := n |}.

(** [queueItem.retryCount++] *)
Definition bump (q : IQueuedBluetoothCommand) : IQueuedBluetoothCommand :=
  {| base := base q; retryCount := retryCount q + 1 |}.

(** [dequeue] from its entry to the suspension at
    [await queueItem.command()]: nothing when disposed, executing or
    empty; otherwise raise [isExecuting], shift the head, increment its
    retry count and invoke it. *)
Definition dequeue (s : state) : state :=
  if isDisposed s then s
  else if negb (isExecuting s) && (0 <? length (bluetoothCommandQueue s))%nat then
    let s1 := set_isExecuting s true in
    match bluetoothCommandQueue s1 with
    | queueItem :: rest =>
        set_awaiting (set_queue s1 rest) (awaiting s1 ++ [bump queueItem])
    | [] =>
        (* [shift()] gave [undefined]: straight to [finally] *)
        let s2 := set_isExecuting s1 false in
        set_immediates s2 (S (immediates s2))
    end
  else s.

(** How an invocation ends: the promise resolves, or it rejects with a
    value whose [message] is a string ([Some]) or is missing ([None]). *)
Inductive Outcome : Type :=
| Resolved
| Rejected (message : option string).

(** The rest of [dequeue], resumed when the command invoked by the
    [k]-th suspended call settles: [catch], [finally], [setImmediate]. *)
Definition settle (s : state) (k : nat) (r : Outcome) : state :=
  match awaiting s !! k with
  | None => s
  | Some queueItem =>
      let s1 := set_awaiting s (delete k (awaiting s)) in
      match r with
      | Resolved =>
          let s2 := set_isExecuting s1 false in
          set_immediates s2 (S (immediates s2))
      | Rejected (Some message) =>
          let s2 :=
            if negb (JS.includes message "Not connected") then
              if retryCount queueItem <? maxRetries (base queueItem)
              then set_queue s1 (queueItem :: bluetoothCommandQueue s1)
              else s1
            else s1 in
          let s3 := set_isExecuting s2 false in
          set_immediates s3 (S (immediates s3))
      | Rejected None =>
          (* [e.message.includes] raises inside [catch]: [finally] still
             runs, the exception leaves [dequeue] before [setImmediate] *)
          set_isExecuting s1 false
      end
  end.

Definition executeCommand (s : state) (c : IBluetoothCommand) : state :=
  dequeue (set_queue s (bluetoothCommandQueue s ++ [{| base := c; retryCount := 0 |}])).

(** A pending [setImmediate] callback runs: it calls [dequeue]. *)
Definition runImmediate (s : state) : state :=
  match immediates s with
  | O => s
  | S n => dequeue (set_immediates s n)
  end.

(** The part of [dispose] that touches the pump. *)
Definition dispose (s : state) : state :=
  set_queue (set_isDisposed s true) [].

(** JavaScript [!x] and [x || 0] for [x : number | undefined]. *)
Definition falsy (x : option Z) : bool :=
  match x with
  | None => true
  | Some n => n =? 0
  end.

Definition or_zero (x : option Z) : Z :=
  match x with
  | None => 0
  | Some n => n
  end.

(** [x <= y] with [x : number | undefined]: [undefined] compares false. *)
Definition le_num (x : option Z) (y : Z) : bool :=
  match x with
  | None => false
  | Some n => n <=? y
  end.

Definition shouldReconnect (s : state) (address : string) : bool :=
  (maxConnectRetries s =? -1)
  || falsy (_connectRetryCounts s !! address)
  || le_num (_connectRetryCounts s !! address) (maxConnectRetries s).

(** [this.adapter?.availableDeviceUuids.includes(address)] *)
Definition stillAvailable (s : state) (address : string) : bool :=
  match adapter s with
  | Some uuids => existsb (String.eqb address) uuids
  | None => false
  end.

Definition reconnectCommand (address : string) : IBluetoothCommand :=
  {| command := OnDeviceAdded address; name := "Reconnect"; maxRetries := 0 |}.

Definition reconnectDevice (s : state) (address : string) : state :=
  if shouldReconnect s address then
    let s1 := set_connectRetryCounts s
                (<[address := or_zero (_connectRetryCounts s !! address) + 1]>
                   (_connectRetryCounts s)) in
    if stillAvailable s1 address
    then executeCommand s1 (reconnectCommand address)
    else set_discoveryRounds s1 (S (discoveryRounds s1))
  else s.

(** Everything that can happen to a device manager, in any order. *)
Inductive Input : Type :=
| ExecuteCommand (c : IBluetoothCommand)
| Dequeue
| Settle (k : nat) (r : Outcome)
| Immediate
| ReconnectDevice (address : string)
| Dispose.

Definition step (s : state) (i : Input) : state :=
  match i with
  | ExecuteCommand c => executeCommand s c
  | Dequeue => dequeue s
  | Settle k r => settle s k r
  | Immediate => runImmediate s
  | ReconnectDevice a => reconnectDevice s a
  | Dispose => dispose s
  end.

Definition run (s : state) (tr : list Input) : state := fold_left step tr s.

End DeviceManager.

(** ** BlindMqtt.ts and Application.ts *)

Module BlindMqtt.

Record IBlindConfig : Type := {
  name : string;
  mac : string;
  passkey : string
}.

Definition MQTT_TOPIC_PREFIX : string := "bt2mqtt".

(** [macAddress.replace(/:/g, "_")] *)
Fixpoint sanitizeMacAddress (macAddress : string) : string :=
  match macAddress with
  | EmptyString => EmptyString
  | String c r =>
      String (if Ascii.eqb c ":"%char then "_"%char else c) (sanitizeMacAddress r)
  end.

Definition getBlindTiltStatusTopic (blindConfig : IBlindConfig) : string :=
  MQTT_TOPIC_PREFIX +:+ "/cover/" +:+ sanitizeMacAddress (mac blindConfig) +:+ "/tilt/state".

Definition getBlindStateTopic (blindConfig : IBlindConfig) : string :=
  MQTT_TOPIC_PREFIX +:+ "/cover/" +:+ sanitizeMacAddress (mac blindConfig) +:+ "/state".

End BlindMqtt.

Module Application.
Import BlindMqtt.

Record state : Type := {
  blinds : list IBlindConfig;
  isMqttConnected : bool
}.

(** Calls made on the MQTT client. *)
Inductive Publication : Type :=
| json_post (topic : string) (payload : Z)
| post (topic : string) (payload : string).

Definition _getBlindConfig (app : state) (macAddress : string) : option IBlindConfig :=
  find (fun blind => String.eqb (mac blind) macAddress) (blinds app).

Definition _publishStringMessage (app : state) (topic payload : string) : list Publication :=
  if isMqttConnected app then [post topic payload] else [].

Definition _publishNumberMessage (app : state) (topic : string) (payload : Z) : list Publication :=
  if isMqttConnected app then [json_post topic payload] else [].

Definition roundAngle (angle : Z) : Z :=
  if 190 <=? angle then 200
  else if angle <=? 10 then 0
  else angle.

(** [_onBlindAngleChanged(blind, angle)], with [blind.address] as
    [address]. *)
Definition _onBlindAngleChanged (app : state) (address : string) (angle : Z)
  : list Publication :=
  match _getBlindConfig app address with
  | None => []
  | Some blindConfig =>
      let roundedAngle := roundAngle angle in
      _publishNumberMessage app (getBlindTiltStatusTopic blindConfig) roundedAngle
      ++ (if (roundedAngle <=? 10) || (190 <=? roundedAngle)
          then _publishStringMessage app (getBlindStateTopic blindConfig) "closed"
          else _publishStringMessage app (getBlindStateTopic blindConfig) "open")
  end.

End Application.

(** ** Vocabulary of the statements

  The notions the properties are phrased with: positions in a payload,
  the expected passkey echo. *)

Module Notions.

(** The byte at an offset and the little-endian 16-bit word at an offset. *)
Definition byte_at (buf : Buffer.t) (i : nat) : Z := Buffer.u8 (nth i buf x00).

Definition u16le_at (buf : Buffer.t) (i : nat) : Z :=
  byte_at buf i + 256 * byte_at buf (S i).

(** A string with its first two characters removed. *)
Definition drop_first_two (s : string) : string :=
  substring 2 (String.length s - 2) s.

(** The tilt value snapped to the end positions. *)
Definition snapped (angle : Z) : Z :=
  if angle <=? 10 then 0
  else if 190 <=? angle then 200
  else angle.

(** The cover state of an angle. *)
Definition cover_state (angle : Z) : string :=
  if ((0 <=? angle) && (angle <=? 10)) || ((190 <=? angle) && (angle <=? 200))
  then "closed" else "open".

(** The bytes of a notification render, in hexadecimal, as the configured
    passkey followed by "00", letter case apart. *)
Definition is_echo_of (configured : string) (buffer : Buffer.t) : Prop :=
  JS.toLowerCase (Buffer.toString_hex buffer) = JS.toLowerCase (configured +:+ "00").

(** At most one command is in flight, and only while [isExecuting] is
    raised. *)
Definition single_flight (s : DeviceManager.state) : Prop :=
  (length (DeviceManager.awaiting s) <= 1)%nat
  /\ (DeviceManager.isExecuting s = false -> DeviceManager.awaiting s = []).

End Notions.

(** ** More of the JavaScript string library *)

Module Text.

(** [s.replace(/a/g, "b")] for single characters [a], [b]. *)
Fixpoint replaceAll (a b : ascii) (s : string) : string :=
  match s with
  | EmptyString => EmptyString
  | String c r => String (if Ascii.eqb c a then b else c) (replaceAll a b r)
  end.

(** [String.prototype.toUpperCase] on one code unit (ASCII letters). *)
Definition upper_ascii (c : ascii) : ascii :=
  let n := N_of_ascii c in
  if ((97 <=? n) && (n <=? 122))%N then ascii_of_N (n - 32) else c.

Fixpoint toUpperCase (s : string) : string :=
  match s with
  | EmptyString => EmptyString
  | String c r => String (upper_ascii c) (toUpperCase r)
  end.

(** [s.substring(n)] for a non-negative [n]. *)
Definition substring_from (n : nat) (s : string) : string := JS.slice n s.

(** [s.endsWith(suffix)] *)
Definition endsWith (s suffix : string) : bool :=
  (String.length suffix <=? String.length s)%nat
  && String.eqb (JS.slice (String.length s - String.length suffix) s) suffix.

(** [s.padStart(n, "0")] *)
Fixpoint zeros (n : nat) : string :=
  match n with
  | O => EmptyString
  | S k => String "0" (zeros k)
  end.

Definition padStart0 (n : nat) (s : string) : string :=
  zeros (n - String.length s) +:+ s.

(** [parts.join(sep)] *)
Fixpoint join (sep : string) (parts : list string) : string :=
  match parts with
  | [] => EmptyString
  | [p] => p
  | p :: rest => p +:+ sep +:+ join sep rest
  end.

(** [path.split("/").pop()]: what follows the last slash. *)
Fixpoint lastSegment_from (current : string) (path : string) : string :=
  match path with
  | EmptyString => current
  | String c r =>
      if Ascii.eqb c "/" then lastSegment_from r r
      else lastSegment_from current r
  end.

Definition lastSegment (path : string) : string := lastSegment_from path path.

(** [n.toString(16)] for a non-negative integer. *)
Definition toString16 (n : N) : string :=
  NilZero.string_of_uint (N.to_hex_uint n).

End Text.

(** ** node-ble: Adapter.ts

    The device identifiers of the adapter, the cache of [Device]
    instances and the events the adapter emits.  A [Device] instance is
    represented by the device name it was constructed with. *)

Module Adapter.

Definition serializeUuidToDeviceId (uuid : string) : string :=
  "dev_" +:+ Text.replaceAll ":" "_" uuid.

Definition deserializeDeviceIdToUuid (uuid : string) : string :=
  Text.replaceAll "_" ":" (Text.substring_from 4 uuid).

Record state : Type := {
  _availableDeviceIds : list string;
  _devices : gmap string string;
  _isInitialized : bool
}.

Inductive Event : Type :=
| device_added (uuid : string)
| device_removed (uuid : string)
| device_dispose (deviceName : string).

Inductive Error : Type :=
| AdapterNotInitialized
| DeviceNotAvailable (deviceId : string).

Definition includes (ids : list string) (id : string) : bool :=
  existsb (String.eqb id) ids.

(** The getter [availableDeviceUuids]. *)
Definition availableDeviceUuids (s : state) : Error + list string :=
  if _isInitialized s then inr (map deserializeDeviceIdToUuid (_availableDeviceIds s))
  else inl AdapterNotInitialized.

Definition _addAvailableDevice (s : state) (deviceId : string) : state * list Event :=
  if negb (includes (_availableDeviceIds s) deviceId) then
    ({| _availableDeviceIds := _availableDeviceIds s ++ [deviceId];
        _devices := _devices s;
        _isInitialized := _isInitialized s |},
     [device_added (deserializeDeviceIdToUuid deviceId)])
  else (s, []).

Definition removeDevice (s : state) (deviceId : string) : state * list Event :=
  let deviceUuid := deserializeDeviceIdToUuid deviceId in
  let ids := filter (fun id => negb (String.eqb id deviceId)) (_availableDeviceIds s) in
  match _devices s !! deviceUuid with
  | Some device =>
      ({| _availableDeviceIds := ids;
          _devices := delete deviceUuid (_devices s);
          _isInitialized := _isInitialized s |},
       [device_dispose device; device_removed deviceUuid])
  | None =>
      ({| _availableDeviceIds := ids;
          _devices := _devices s;
          _isInitialized := _isInitialized s |},
       [device_removed deviceUuid])
  end.

(** [getDevice(uuid)]: the cached instance, or a new one when the device is
    available; the result is the device name of the instance. *)
Definition getDevice (s : state) (uuid : string) : state * (Error + string) :=
  if negb (_isInitialized s) then (s, inl AdapterNotInitialized)
  else
    match _devices s !! uuid with
    | Some device => (s, inr device)
    | None =>
        let serializedUuid := serializeUuidToDeviceId uuid in
        if negb (includes (_availableDeviceIds s) serializedUuid)
        then (s, inl (DeviceNotAvailable serializedUuid))
        else
          ({| _availableDeviceIds := _availableDeviceIds s;
              _devices := <[uuid := serializedUuid]> (_devices s);
              _isInitialized := _isInitialized s |},
           inr serializedUuid)
    end.

(** [_onDBusInterfacesAdded(path, interfaces)], with the interface names
    present in [interfaces]. *)
Definition _onDBusInterfacesAdded (s : state) (path : string) (interfaces : list string)
  : state * list Event :=
  if includes interfaces "org.bluez.Device1"
  then _addAvailableDevice s (Text.lastSegment path)
  else (s, []).

Definition _onDBusInterfacesRemoved (s : state) (path : string) (interfaces : list string)
  : state * list Event :=
  if includes interfaces "org.bluez.Device1"
  then removeDevice s (Text.lastSegment path)
  else (s, []).

Inductive Input : Type :=
| InterfacesAdded (path : string) (interfaces : list string)
| InterfacesRemoved (path : string) (interfaces : list string)
| GetDevice (uuid : string)
| RemoveDevice (deviceId : string).

Definition step (s : state) (i : Input) : state * list Event :=
  match i with
  | InterfacesAdded p names => _onDBusInterfacesAdded s p names
  | InterfacesRemoved p names => _onDBusInterfacesRemoved s p names
  | GetDevice u => (fst (getDevice s u), [])
  | RemoveDevice d => removeDevice s d
  end.

Fixpoint run (s : state) (tr : list Input) : state * list Event :=
  match tr with
  | [] => (s, [])
  | i :: tr' =>
      let '(s1, e1) := step s i in
      let '(s2, e2) := run s1 tr' in
      (s2, e1 ++ e2)
  end.

End Adapter.

(** ** Config.ts

    The decoding of blind entries of the configuration file.  The base64
    decoder of Node is a parameter of the functions that use it. *)

Module Config.

Record IBlindFileConfig : Type := {
  encoded_mac : option string;
  encoded_passkey : option string;
  name : string;
  mac : option string;
  passkey : option string
}.

(** [[a-fA-F0-9]] *)
Definition isHexDigit (c : ascii) : bool :=
  match Buffer.hex_value c with
  | Some _ => true
  | None => false
  end.

(** [(:[a-fA-F0-9]{2}){n}$] *)
Fixpoint matchGroups (n : nat) (s : string) : bool :=
  match n with
  | O => String.eqb s ""
  | S k =>
      match s with
      | String c (String a (String b r)) =>
          Ascii.eqb c ":" && isHexDigit a && isHexDigit b && matchGroups k r
      | _ => false
      end
  end.

(** [MATCH_MAC_ADDRESS.test(s)] for [/^[a-fA-F0-9]{2}(:[a-fA-F0-9]{2}){5}$/] *)
Definition MATCH_MAC_ADDRESS (s : string) : bool :=
  match s with
  | String a (String b r) => isHexDigit a && isHexDigit b && matchGroups 5 r
  | _ => false
  end.

Definition toHex (value : N) : string :=
  Text.toUpperCase (Text.padStart0 2 (Text.toString16 value)).

(** JavaScript truthiness of [string | undefined]. *)
Definition present (s : option string) : option string :=
  match s with
  | Some (String c r) => Some (String c r)
  | _ => None
  end.

Definition decodeMacAddress (base64 : string -> Buffer.t) (encodedMacAddress : option string)
  : string :=
  match present encodedMacAddress with
  | None => ""
  | Some encoded =>
      Text.join ":" (rev (map (fun d => toHex (Byte.to_N d)) (base64 encoded)))
  end.

Definition decodePasskey (base64 : string -> Buffer.t) (encodedPasskey : option string)
  : string :=
  match present encodedPasskey with
  | None => ""
  | Some encoded =>
      Text.join "" (map (fun d => toHex (Byte.to_N d)) (base64 encoded))
  end.

(** The body of the loop over [config.smart_blinds.blinds]. *)
Definition addBlind (base64 : string -> Buffer.t)
  (blinds : list BlindMqtt.IBlindConfig) (blind : IBlindFileConfig)
  : list BlindMqtt.IBlindConfig :=
  let mac0 := match present (mac blind) with
              | Some m => m
              | None => decodeMacAddress base64 (encoded_mac blind)
              end in
  let passkey0 := match present (passkey blind) with
                  | Some p => p
                  | None => decodePasskey base64 (encoded_passkey blind)
                  end in
  if MATCH_MAC_ADDRESS mac0 then
    blinds ++ [{| BlindMqtt.name := name blind;
                  BlindMqtt.mac := Text.toUpperCase mac0;
                  BlindMqtt.passkey := passkey0 |}]
  else blinds.

Definition loadBlinds (base64 : string -> Buffer.t) (entries : list IBlindFileConfig)
  : list BlindMqtt.IBlindConfig :=
  fold_left (addBlind base64) entries [].

End Config.

(** ** BlindMqtt.ts: the inbound topics *)

Module Topics.
Import BlindMqtt.

Definition getBlindCommandTopic (blindConfig : IBlindConfig) : string :=
  MQTT_TOPIC_PREFIX +:+ "/cover/" +:+ sanitizeMacAddress (mac blindConfig) +:+ "/set".

Definition getBlindTiltCommandTopic (blindConfig : IBlindConfig) : string :=
  MQTT_TOPIC_PREFIX +:+ "/cover/" +:+ sanitizeMacAddress (mac blindConfig) +:+ "/tilt/set".

End Topics.

(** ** Application.ts: inbound messages

    A packet carries its topic and its payload; [text] is the payload as a
    string and [json] the integer it denotes when parsed as JSON.  [devices]
    is the registry of the device manager, [params_mac] the topic segment
    bound to [:mac]. *)

Module Inbound.

Record Packet : Type := {
  topic : string;
  text : string;
  json : Z
}.

Definition _onBlindMqttMessageReceived
  (devices : gmap string Blind.state) (pkt : Packet) (params_mac : string)
  : list Blind.Effect :=
  match devices !! Text.replaceAll "_" ":" params_mac with
  | Some blind =>
      if Text.endsWith (topic pkt) "tilt/set" then Blind.setAngle blind (json pkt)
      else if Text.endsWith (topic pkt) "set" then
        if String.eqb (text pkt) "OPEN"
        then Blind.setAngle blind (Constants.MAX_ANGLE / 2)
        else if String.eqb (text pkt) "CLOSE"
        then Blind.setAngle blind 0
        else []
      else []
  | None => []
  end.

End Inbound.

(** ** DeviceManager.ts: rounds of the pump

    One round: the command in flight settles, then the deferred re-entry
    scheduled by [dequeue] runs. *)

Module Rounds.
Import DeviceManager.

Definition succeed (s : state) : state :=
  runImmediate (settle s 0 Resolved).

Definition fail (message : string) (s : state) : state :=
  runImmediate (settle s 0 (Rejected (Some message))).

(** The pump is running [item], with [rest] waiting behind it and no
    re-entry pending. *)
Definition busy_with (s : state) (item : Command.IQueuedBluetoothCommand)
  (rest : list Command.IQueuedBluetoothCommand) : Prop :=
  isDisposed s = false /\ isExecuting s = true /\ awaiting s = [item]
  /\ bluetoothCommandQueue s = rest /\ immediates s = 0%nat.

(** The pump is at rest: nothing in flight, nothing queued or pending. *)
Definition idle (s : state) : Prop :=
  isExecuting s = false /\ awaiting s = []
  /\ bluetoothCommandQueue s = [] /\ immediates s = 0%nat.

End Rounds.

(** ** DeviceManager.ts: the registry of devices

    A device is an object shared with its other users: the registry holds
    references, and the listeners attached to each object are kept in a
    store indexed by reference. *)

Module Registry.

Inductive Handler : Set :=
| onDeviceConnected
| onDeviceDisconnected
| onDeviceDispose.

Global Instance Handler_eq_dec : EqDecision Handler.
Proof. solve_decision. Defined.

Record DeviceBase : Type := {
  ref : nat;
  address : string
}.

Record state : Type := {
  devices : gmap string DeviceBase;
  listeners : gmap nat (list (string * Handler))
}.

Definition listenersOf (s : state) (device : DeviceBase) : list (string * Handler) :=
  default [] (listeners s !! ref device).


(** [emitter.removeListener(event, handler)]: removes the most recently
    added instance, if there is one. *)
Fixpoint removeFirst (x : string * Handler) (l : list (string * Handler))
  : list (string * Handler) :=
  match l with
  | [] => []
  | y :: r => if bool_decide (x = y) then r else y :: removeFirst x r
  end.

Definition removeListener (l : list (string * Handler)) (event : string) (h : Handler)
  : list (string * Handler) :=
  rev (removeFirst (event, h) (rev l)).


Definition removeDevice (s : state) (device : DeviceBase) : state :=
  let l := removeListener
             (removeListener
                (removeListener (listenersOf s device) "connect" onDeviceConnected)
                "disconnect" onDeviceDisconnected)
             "dispose" onDeviceDisconnected in
  {| devices := delete (address device) (devices s);
     listeners := <[ref device := l]> (listeners s) |}.

Definition containsDeviceByMacAddress (s : state) (macAddress : string) : bool :=
  match devices s !! macAddress with
  | Some _ => true
  | None => false
  end.

Definition haveFoundAllDevices (s : state) (macAddresses : list string) : bool :=
  forallb (containsDeviceByMacAddress s) macAddresses.

End Registry.

(** ** Blind.ts: sensor and status notifications

    The fields of a [Blind] instance written by [onSensorsChanged] and
    [onStatusChanged], and the events these emit.  A status flag is
    [undefined] until first stored. *)

Module Telemetry.
Import Blind.

Record state : Type := {
  rawSensorState : string;
  rawStatusState : string;
  batteryCharge : Z;
  batteryLevel : Z;
  batteryTemperature : float;
  batteryVoltage : Z;
  interiorTemperature : float;
  illuminance : float;
  solarPanelVoltage : Z;
  hasSolar : bool;
  isBonding : option bool;
  isCalibrated : option bool;
  isBlindPaired : option bool;
  isOverTemperature : option bool;
  isReversed : option bool;
  isTimeValid : option bool;
  isSolarCharging : option bool;
  isUsbCharging : option bool;
  isUnderVoltageLockout : option bool;
  tempOverride : bool
}.

Definition new : state :=
  {| rawSensorState := ""; rawStatusState := "";
     batteryCharge := -1; batteryLevel := -1; batteryTemperature := (-1)%float;
     batteryVoltage := -1; interiorTemperature := (-1)%float;
     illuminance := (-1)%float; solarPanelVoltage := -1;
     hasSolar := false; isBonding := None; isCalibrated := None;
     isBlindPaired := None; isOverTemperature := None; isReversed := None;
     isTimeValid := None; isSolarCharging := None; isUsbCharging := None;
     isUnderVoltageLockout := None; tempOverride := false |}.

Inductive Event : Type :=
| sensors_changed (raw : string)
| battery_level_changed (v : Z)
| battery_temperature_changed (v : float)
| battery_voltage_changed (v : Z)
| battery_charge_changed (v : Z)
| interior_temperature_changed (v : float)
| illuminance_changed (v : float)
| solar_panel_voltage_changed (v : Z)
| status_changed (raw : string)
| has_solar_changed (v : bool)
| is_bonding_changed (v : option bool)
| is_calibrated_changed (v : option bool)
| is_solar_charging_changed (v : option bool)
| is_usb_charging_changed (v : option bool)
| is_over_temperature_changed (v : option bool)
| is_blind_paired_changed (v : option bool)
| is_reversed_changed (v : option bool)
| is_time_valid_changed (v : option bool)
| is_under_voltage_lockout_changed (v : option bool)
| temperature_override_changed (v : bool).

(** [a !== b] on numbers. *)
Definition neqZ (a b : Z) : bool := negb (a =? b).
Definition neqF (a b : float) : bool := negb (PrimFloat.eqb a b).

(** [a !== b] with [a : boolean | undefined] and [b : boolean]. *)
Definition neqFlag (a : option bool) (b : bool) : bool :=
  match a with
  | Some x => negb (Bool.eqb x b)
  | None => true
  end.

(** [onSensorsChanged]; [None] when [parseBlindSensors] raises. *)
Definition onSensorsChanged (st : state) (buffer : Buffer.t) : option (state * list Event) :=
  currentState ← parseBlindSensors buffer;
  let raw := Buffer.toString_hex buffer in
  if negb (String.eqb (rawSensorState st) raw) then
    let level := neqZ (batteryLevel st) (Blind.batteryPercentage currentState) in
    let temperature :=
      neqF (batteryTemperature st) (Blind.batteryTemperature currentState) in
    let voltage := neqZ (batteryVoltage st) (Blind.batteryVoltage currentState) in
    let charge := neqZ (batteryCharge st) (Blind.batteryCharge currentState) in
    let interior :=
      neqF (interiorTemperature st) (Blind.interiorTemperature currentState) in
    let lux := neqF (illuminance st) (Blind.illuminance currentState) in
    let solar := neqZ (solarPanelVoltage st) (Blind.solarPanelVoltage currentState) in
    let st' :=
      {| rawSensorState := raw;
         rawStatusState := rawStatusState st;
         batteryCharge := if charge then Blind.batteryCharge currentState
                          else batteryCharge st;
         batteryLevel := if level then Blind.batteryPercentage currentState
                         else batteryLevel st;
         batteryTemperature := if temperature then Blind.batteryTemperature currentState
                               else batteryTemperature st;
         batteryVoltage := if voltage then Blind.batteryVoltage currentState
                           else batteryVoltage st;
         interiorTemperature := if interior then Blind.interiorTemperature currentState
                                else interiorTemperature st;
         illuminance := if lux then Blind.illuminance currentState else illuminance st;
         solarPanelVoltage := if solar then Blind.solarPanelVoltage currentState
                              else solarPanelVoltage st;
         hasSolar := hasSolar st; isBonding := isBonding st;
         isCalibrated := isCalibrated st; isBlindPaired := isBlindPaired st;
         isOverTemperature := isOverTemperature st; isReversed := isReversed st;
         isTimeValid := isTimeValid st; isSolarCharging := isSolarCharging st;
         isUsbCharging := isUsbCharging st;
         isUnderVoltageLockout := isUnderVoltageLockout st;
         tempOverride := tempOverride st |} in
    Some (st',
          [sensors_changed raw]
          ++ (if level then [battery_level_changed (batteryLevel st')] else [])
          ++ (if temperature then [battery_temperature_changed (batteryTemperature st')]
              else [])
          ++ (if voltage then [battery_voltage_changed (batteryVoltage st')] else [])
          ++ (if charge then [battery_charge_changed (batteryCharge st')] else [])
          ++ (if interior then [interior_temperature_changed (interiorTemperature st')]
              else [])
          ++ (if lux then [illuminance_changed (illuminance st')] else [])
          ++ (if solar then [solar_panel_voltage_changed (solarPanelVoltage st')] else []))
  else Some (st, []).

(** [onStatusChanged]; [None] when [parseBlindStatus] raises. *)
Definition onStatusChanged (st : state) (buffer : Buffer.t) : option (state * list Event) :=
  let raw := Buffer.toString_hex buffer in
  currentState ← parseBlindStatus buffer;
  if negb (String.eqb raw (rawStatusState st)) then
    let solar := negb (Bool.eqb (hasSolar st) (Blind.hasSolar currentState)) in
    let bonding := neqFlag (isBonding st) (Blind.isBonding currentState) in
    let calibrated := neqFlag (isCalibrated st) (Blind.isCalibrated currentState) in
    let solarCharging := neqFlag (isSolarCharging st) (Blind.isSolarCharging currentState) in
    let usbCharging := neqFlag (isUsbCharging st) (Blind.isUsbCharging currentState) in
    let overTemp := neqFlag (isOverTemperature st) (Blind.isOverTemperature currentState) in
    let paired := neqFlag (isBlindPaired st) (Blind.isPaired currentState) in
    let reversed := neqFlag (isReversed st) (Blind.isReversed currentState) in
    let timeValid := neqFlag (isTimeValid st) (Blind.isTimeValid currentState) in
    let lockout :=
      neqFlag (isUnderVoltageLockout st) (Blind.isUnderVoltageLockout currentState) in
    let override := negb (Bool.eqb (tempOverride st) (Blind.tempOverride currentState)) in
    let st' :=
      {| rawSensorState := rawSensorState st;
         rawStatusState := raw;
         batteryCharge := batteryCharge st; batteryLevel := batteryLevel st;
         batteryTemperature := batteryTemperature st;
         batteryVoltage := batteryVoltage st;
         interiorTemperature := interiorTemperature st;
         illuminance := illuminance st; solarPanelVoltage := solarPanelVoltage st;
         hasSolar := if solar then Blind.hasSolar currentState else hasSolar st;
         isBonding := if bonding then Some (Blind.isBonding currentState)
                      else isBonding st;
         isCalibrated := if calibrated then Some (Blind.isCalibrated currentState)
                         else isCalibrated st;
         isBlindPaired := if paired then Some (Blind.isPaired currentState)
                          else isBlindPaired st;
         isOverTemperature := if overTemp then Some (Blind.isOverTemperature currentState)
                              else isOverTemperature st;
         isReversed := if reversed then Some (Blind.isReversed currentState)
                       else isReversed st;
         isTimeValid := if timeValid then Some (Blind.isTimeValid currentState)
                        else isTimeValid st;
         isSolarCharging := if solarCharging then Some (Blind.isSolarCharging currentState)
                            else isSolarCharging st;
         isUsbCharging := if usbCharging then Some (Blind.isUsbCharging currentState)
                          else isUsbCharging st;
         isUnderVoltageLockout :=
           if lockout then Some (Blind.isUnderVoltageLockout currentState)
           else isUnderVoltageLockout st;
         tempOverride := if override then Blind.tempOverride currentState
                         else tempOverride st |} in
    Some (st',
          [status_changed raw]
          ++ (if solar then [has_solar_changed (hasSolar st')] else [])
          ++ (if bonding then [is_bonding_changed (isBonding st')] else [])
          ++ (if calibrated then [is_calibrated_changed (isCalibrated st')] else [])
          ++ (if solarCharging then [is_solar_charging_changed (isSolarCharging st')]
              else [])
          ++ (if usbCharging then [is_usb_charging_changed (isUsbCharging st')] else [])
          ++ (if overTemp then [is_over_temperature_changed (isOverTemperature st')]
              else [])
          ++ (if paired then [is_blind_paired_changed (isBlindPaired st')] else [])
          ++ (if reversed then [is_reversed_changed (isReversed st')] else [])
          ++ (if timeValid then [is_time_valid_changed (isTimeValid st')] else [])
          ++ (if lockout then [is_under_voltage_lockout_changed (isUnderVoltageLockout st')]
              else [])
          ++ (if override then [temperature_override_changed (tempOverride st')] else []))
  else Some (st, []).

End Telemetry.

(** * Properties *)

#[local] Set Warnings "-inexact-float".

(** Case analysis on the condition of the first conditional in the goal. *)
Ltac split_if :=
  match goal with
  | |- context [if ?c then _ else _] => destruct c eqn:?
  end.

(** ** Status decoding *)

Section StatusDecoding.
Import Blind.

Lemma ToInt32_range z : - 2 ^ 31 <= JS.ToInt32 z < 2 ^ 31.
Proof.
  unfold JS.ToInt32.
  pose proof (Z.mod_pos_bound z (2 ^ 32) ltac:(lia)) as Hm.
  cbv zeta. destruct (2 ^ 31 <=? z mod 2 ^ 32) eqn:E;
    [apply Z.leb_le in E | apply Z.leb_gt in E]; lia.
Qed.

Lemma ToInt32_mod z : JS.ToInt32 z mod 2 ^ 32 = z mod 2 ^ 32.
Proof.
  unfold JS.ToInt32. cbv zeta.
  destruct (2 ^ 31 <=? z mod 2 ^ 32).
  - replace (z mod 2 ^ 32 - 2 ^ 32) with (z mod 2 ^ 32 + (-1) * 2 ^ 32) by lia.
    rewrite Z.mod_add by lia. apply Z.mod_mod. lia.
  - apply Z.mod_mod. lia.
Qed.

Lemma ToInt32_small z : - 2 ^ 31 <= z < 2 ^ 31 -> JS.ToInt32 z = z.
Proof.
  intros Hz. unfold JS.ToInt32. cbv zeta.
  destruct (Z.neg_nonneg_cases z) as [Hneg | Hpos].
  - replace (z mod 2 ^ 32) with (z + 2 ^ 32).
    + destruct (2 ^ 31 <=? z + 2 ^ 32) eqn:E;
        [apply Z.leb_le in E | apply Z.leb_gt in E]; lia.
    + apply Z.mod_unique with (q := -1); lia.
  - rewrite Z.mod_small by lia.
    destruct (2 ^ 31 <=? z) eqn:E;
      [apply Z.leb_le in E | apply Z.leb_gt in E]; lia.
Qed.

Lemma ToInt32_testbit z k : 0 <= k < 32 -> Z.testbit (JS.ToInt32 z) k = Z.testbit z k.
Proof.
  intros Hk.
  rewrite <- (Z.mod_pow2_bits_low (JS.ToInt32 z) 32 k) by lia.
  rewrite ToInt32_mod. apply Z.mod_pow2_bits_low. lia.
Qed.

Lemma land_pow2 x k : 0 <= k -> Z.land x (2 ^ k) = if Z.testbit x k then 2 ^ k else 0.
Proof.
  intros Hk. apply Z.bits_inj'. intros n Hn.
  rewrite Z.land_spec, Z.pow2_bits_eqb by lia.
  destruct (Z.eqb_spec k n) as [-> | Hne].
  - destruct (Z.testbit x n) eqn:E; cbn [andb].
    + rewrite Z.pow2_bits_eqb by lia. symmetry. apply Z.eqb_refl.
    + symmetry. apply Z.bits_0.
  - rewrite andb_false_r. destruct (Z.testbit x k).
    + rewrite Z.pow2_bits_eqb by lia. symmetry. now apply Z.eqb_neq.
    + symmetry. apply Z.bits_0.
Qed.

(** For a single-bit mask below the sign bit the test of the source is
    the test of that bit of the status word. *)
Lemma has_flag_low_bit status k :
  0 <= k < 31 -> has_flag status (2 ^ k) = Z.testbit status k.
Proof.
  intros Hk. unfold has_flag, JS.band.
  assert (Hp : 0 < 2 ^ k < 2 ^ 31).
  { split; [apply Z.pow_pos_nonneg; lia | apply Z.pow_lt_mono_r; lia]. }
  rewrite (ToInt32_small (2 ^ k)) by lia.
  rewrite land_pow2 by lia.
  rewrite ToInt32_testbit by lia.
  destruct (Z.testbit status k).
  - rewrite ToInt32_small by lia. apply Z.eqb_refl.
  - rewrite ToInt32_small by lia. apply Z.eqb_neq. lia.
Qed.

(** The sign-bit mask never compares equal: [&] yields a signed 32-bit
    integer, the constant 0x80000000 is positive. *)
Lemma has_flag_sign_bit status : has_flag status Constants.IS_PASSKEY_VALID = false.
Proof.
  unfold has_flag, JS.band. apply Z.eqb_neq.
  pose proof (ToInt32_range
                (Z.land (JS.ToInt32 status) (JS.ToInt32 Constants.IS_PASSKEY_VALID))).
  unfold Constants.IS_PASSKEY_VALID in *. lia.
Qed.

Lemma parseBlindStatus_isPasskeyValid buffer st :
  parseBlindStatus buffer = Some st -> isPasskeyValid st = false.
Proof.
  unfold parseBlindStatus. destruct (Buffer.readUInt32LE buffer 0) as [w|]; cbn.
  - intros [= <-]. cbn. apply has_flag_sign_bit.
  - discriminate.
Qed.

(** What [parseBlindStatus] computes from the status word: ten flags are
    the bits 0, 1 and 16 to 23; the remaining three are constantly false. *)
Lemma parseBlindStatus_bits buffer w :
  Buffer.readUInt32LE buffer 0 = Some w ->
  parseBlindStatus buffer
  = Some {| hasSolar := Z.testbit w 17; isBonding := Z.testbit w 1;
            isCalibrated := Z.testbit w 16; isSolarCharging := Z.testbit w 18;
            isUsbCharging := Z.testbit w 19; isOverTemperature := Z.testbit w 22;
            isPaired := false; isPasskeyInvalid := false; isPasskeyValid := false;
            isReversed := Z.testbit w 0; isTimeValid := Z.testbit w 20;
            isUnderVoltageLockout := Z.testbit w 21; tempOverride := Z.testbit w 23 |}.
Proof.
  intros Hw. unfold parseBlindStatus. rewrite Hw. cbn [mbind option_bind].
  rewrite has_flag_sign_bit.
  change Constants.HAS_SOLAR with (2 ^ 17).
  change Constants.IS_BONDING with (2 ^ 1).
  change Constants.IS_CALIBRATED with (2 ^ 16).
  change Constants.IS_CHARGING_SOLAR with (2 ^ 18).
  change Constants.IS_CHARGING_USB with (2 ^ 19).
  change Constants.IS_OVER_TEMP with (2 ^ 22).
  change Constants.IS_REVERSED with (2 ^ 0).
  change Constants.IS_TIME_VALID with (2 ^ 20).
  change Constants.UNDER_VOLTAGE_LOCKOUT with (2 ^ 21).
  change Constants.TEMP_OVERRIDE with (2 ^ 23).
  rewrite !has_flag_low_bit by lia. reflexivity.
Qed.

(** C1 (at the input of the specification's scenario). On the status bytes
    01 00 02 80, the word read is 0x80020001 and [parseBlindStatus] returns
    isReversed and hasSolar true, and every other flag, isPasskeyValid
    included, false: the test against the mask 0x80000000 fails although
    bit 31 of the word is set. *)
Theorem parseBlindStatus_scenario :
  Buffer.readUInt32LE [x01; x00; x02; x80] 0 = Some 0x80020001
  /\ Z.land 0x80020001 Constants.IS_PASSKEY_VALID = Constants.IS_PASSKEY_VALID
  /\ parseBlindStatus [x01; x00; x02; x80]
     = Some {| hasSolar := true; isBonding := false; isCalibrated := false;
               isSolarCharging := false; isUsbCharging := false;
               isOverTemperature := false; isPaired := false;
               isPasskeyInvalid := false; isPasskeyValid := false;
               isReversed := true; isTimeValid := false;
               isUnderVoltageLockout := false; tempOverride := false |}.
Proof. repeat split; vm_compute; reflexivity. Qed.

End StatusDecoding.

(** ** Sensor decoding *)

Section SensorDecoding.
Import Blind Notions.

Lemma get_in_range (buf : Buffer.t) i :
  (i < length buf)%nat -> Buffer.get buf i = Some (byte_at buf i).
Proof.
  intros Hi. unfold Buffer.get, byte_at.
  rewrite (nth_error_nth' buf x00 Hi). reflexivity.
Qed.

Lemma readUInt16LE_in_range (buf : Buffer.t) i :
  (S i < length buf)%nat -> Buffer.readUInt16LE buf i = Some (u16le_at buf i).
Proof.
  intros Hi. unfold Buffer.readUInt16LE, u16le_at.
  rewrite get_in_range by lia.
  replace (i + 1)%nat with (S i) by lia.
  rewrite get_in_range by lia. f_equal. lia.
Qed.

(** C5. On a buffer of at least 14 bytes [parseBlindSensors] succeeds and
    returns byte 0 as the battery percentage, the little-endian words at
    offsets 2, 4 and 6 as battery voltage, battery charge and solar panel
    voltage, and the words at offsets 8, 10 and 12 divided by ten as
    interior temperature, battery temperature and illuminance; the bytes
    55 00 C4 0E 00 00 00 00 E0 00 D4 00 32 00 give 85, 3780, 0, 0, 22.4,
    21.2 and 5.0. *)
Theorem parseBlindSensors_layout (buf : Buffer.t) :
  (14 <= length buf)%nat ->
  parseBlindSensors buf
  = Some {| batteryPercentage := byte_at buf 0;
            batteryVoltage := u16le_at buf 2;
            batteryCharge := u16le_at buf 4;
            solarPanelVoltage := u16le_at buf 6;
            interiorTemperature := (PrimFloat.of_uint63 (Uint63.of_Z (u16le_at buf 8)) / 10)%float;
            batteryTemperature := (PrimFloat.of_uint63 (Uint63.of_Z (u16le_at buf 10)) / 10)%float;
            illuminance := (PrimFloat.of_uint63 (Uint63.of_Z (u16le_at buf 12)) / 10)%float |}
  /\ parseBlindSensors
       [x55; x00; xc4; x0e; x00; x00; x00; x00; xe0; x00; xd4; x00; x32; x00]
     = Some {| batteryPercentage := 85;
               batteryVoltage := 3780;
               batteryCharge := 0;
               solarPanelVoltage := 0;
               interiorTemperature := 22.4%float;
               batteryTemperature := 21.2%float;
               illuminance := 5.0%float |}.
Proof.
  intros Hlen. split.
  - unfold parseBlindSensors, Buffer.readUInt8.
    rewrite get_in_range by lia.
    rewrite !readUInt16LE_in_range by lia.
    reflexivity.
  - vm_compute. reflexivity.
Qed.

Lemma parseBlindSensors_layout_witness :
  (14 <= length [x55; x00; xc4; x0e; x00; x00; x00; x00; xe0; x00; xd4; x00; x32; x00; xff])%nat
  /\ batteryPercentage
       <$> parseBlindSensors
             [x55; x00; xc4; x0e; x00; x00; x00; x00; xe0; x00; xd4; x00; x32; x00; xff]
     = Some 85.
Proof.
  split; [simpl; lia |].
  rewrite (proj1 (parseBlindSensors_layout
                    [x55; x00; xc4; x0e; x00; x00; x00; x00; xe0; x00; xd4; x00; x32; x00; xff]
                    ltac:(simpl; lia))).
  reflexivity.
Defined.

End SensorDecoding.

(** ** Angle validation and angle notifications *)

Section Angle.
Import Command Blind Notions.

Lemma isValidAngle_iff v : isValidAngle v = true <-> 0 <= v <= 200.
Proof.
  unfold isValidAngle, Constants.MIN_ANGLE, Constants.MAX_ANGLE.
  rewrite andb_true_iff, !Z.leb_le. reflexivity.
Qed.

Lemma u8_of_u8 v : 0 <= v < 256 -> Buffer.u8 (Buffer.of_u8 v) = v.
Proof.
  intros Hv. unfold Buffer.u8, Buffer.of_u8, JS.ToUint8.
  rewrite Z.mod_small by lia.
  destruct (Byte.of_N (Z.to_N v)) as [b|] eqn:E.
  - apply Byte.to_of_N in E. rewrite E. lia.
  - apply Byte.of_N_None_iff in E. lia.
Qed.

Lemma u8_range b : 0 <= Buffer.u8 b <= 255.
Proof.
  unfold Buffer.u8. pose proof (Byte.to_N_bounded b). lia.
Qed.

(** An angle-changed event carries the byte just read, which is in range
    and differs from the stored angle. *)
Lemma angle_changed_inv st buffer a :
  In (Emit_angle_changed a) (snd (onAngleChanged st buffer)) ->
  Buffer.readUInt8 buffer 0 = Some a /\ 0 <= a <= 200 /\ a <> angle st.
Proof.
  unfold onAngleChanged.
  destruct (Buffer.readUInt8 buffer 0) as [b|]; cbn.
  - destruct (isValidAngle b) eqn:Hv; cbn; [| tauto].
    destruct (Z.eqb_spec b (angle st)) as [Heq | Hne]; cbn; [tauto |].
    intros [[= <-] | []]. apply isValidAngle_iff in Hv. auto.
  - intros [[=] | []].
Qed.

(** C7. [setAngle v] raises the invalid-angle error exactly when [v] is
    outside [0, 200]; in particular for -1 and 201.  Inside the range nothing
    is raised (in particular for 0 and 200) and, when the Angle
    characteristic is bound, exactly one command is queued: a write with
    response, to the Angle characteristic, of the single byte [v]. *)
Theorem setAngle_range st v :
  (In (Throw (InvalidAngleValue v)) (setAngle st v) <-> ~ (0 <= v <= 200))
  /\ (0 <= v <= 200 -> forall e, ~ In (Throw e) (setAngle st v))
  /\ (0 <= v <= 200 -> forall h, angleCharacteristic st = Some h ->
      exists b, Buffer.u8 b = v /\
        setAngle st v
        = [ExecuteCommand {| command := WriteValueWithResponse AngleSlot [b];
                             name := "setAngle"; maxRetries := 5 |}])
  /\ setAngle st (-1) = [Throw (InvalidAngleValue (-1))]
  /\ setAngle st 201 = [Throw (InvalidAngleValue 201)]
  /\ (forall e, ~ In (Throw e) (setAngle st 0))
  /\ (forall e, ~ In (Throw e) (setAngle st 200)).
Proof.
  assert (Hok : forall w, 0 <= w <= 200 -> forall e, ~ In (Throw e) (setAngle st w)).
  { intros w Hw e. unfold setAngle.
    rewrite (proj2 (isValidAngle_iff w) Hw). cbn.
    destruct (angleCharacteristic st); cbn; intuition discriminate. }
  split; [| split; [| split]].
  - unfold setAngle. destruct (isValidAngle v) eqn:Hv; cbn.
    + apply isValidAngle_iff in Hv. split; [| tauto].
      destruct (angleCharacteristic st); cbn; intuition discriminate.
    + split; [| auto]. intros _ Hr. apply isValidAngle_iff in Hr. congruence.
  - apply Hok.
  - intros Hv h Hh. exists (Buffer.of_u8 v). split; [apply u8_of_u8; lia |].
    unfold setAngle. rewrite (proj2 (isValidAngle_iff v) Hv), Hh. reflexivity.
  - repeat split; try reflexivity; apply Hok; lia.
Qed.

Lemma setAngle_range_witness :
  exists b, Buffer.u8 b = 100 /\
    setAngle (fst (onParentConnect (new "000102030405" 5) [ANGLE_CHARACTERISTIC_UUID])) 100
    = [ExecuteCommand {| command := WriteValueWithResponse AngleSlot [b];
                         name := "setAngle"; maxRetries := 5 |}].
Proof.
  refine (proj1 (proj2 (proj2 (setAngle_range _ 100))) _ ANGLE_CHARACTERISTIC_UUID _).
  - lia.
  - reflexivity.
Defined.

(** C10. When the byte of an Angle notification is above 200,
    [onAngleChanged] stores -1 as the angle and emits nothing.  An
    angle-changed event is emitted only for a byte within [0, 200] that
    differs from the stored angle, and it carries that byte. *)
Theorem onAngleChanged_out_of_range st buffer a :
  Buffer.readUInt8 buffer 0 = Some a ->
  (200 < a ->
     angle (fst (onAngleChanged st buffer)) = -1
     /\ snd (onAngleChanged st buffer) = [])
  /\ (forall a', In (Emit_angle_changed a') (snd (onAngleChanged st buffer)) ->
        a' = a /\ 0 <= a <= 200 /\ a <> angle st)
  /\ (0 <= a <= 200 -> a <> angle st ->
        onAngleChanged st buffer = (set_angle st a, [Emit_angle_changed a])).
Proof.
  intros Hread. split; [| split].
  - intros Hbig. unfold onAngleChanged. rewrite Hread.
    destruct (isValidAngle a) eqn:Hv.
    + apply isValidAngle_iff in Hv. lia.
    + cbn. auto.
  - intros a' Hin. apply angle_changed_inv in Hin as (Hr & Hrange & Hne).
    rewrite Hread in Hr. injection Hr as <-. auto.
  - intros Hrange Hne. unfold onAngleChanged. rewrite Hread.
    rewrite (proj2 (isValidAngle_iff a) Hrange). cbn.
    destruct (Z.eqb_spec a (angle st)); [contradiction | reflexivity].
Qed.

Lemma onAngleChanged_out_of_range_witness :
  angle (fst (onAngleChanged (set_angle (new "000102030405" 5) 100) [xc9])) = -1
  /\ snd (onAngleChanged (set_angle (new "000102030405" 5) 100) [xc9]) = [].
Proof.
  refine (proj1 (onAngleChanged_out_of_range
                   (set_angle (new "000102030405" 5) 100) [xc9] 201 _) _).
  - reflexivity.
  - lia.
Defined.

End Angle.

(** ** The passkey write *)

Section PasskeyWrite.
Import Command Blind Notions.

Lemma slice_substring s : JS.slice 2 s = drop_first_two s.
Proof.
  unfold drop_first_two.
  destruct s as [| a [| b r]]; cbn; try reflexivity.
  rewrite Nat.sub_0_r.
  induction r as [| c r IH]; cbn; [reflexivity |]. now rewrite <- IH.
Qed.

(** C6. With the Passkey characteristic bound, [setPasskey] queues exactly
    one command, a write with response to the Passkey characteristic whose
    bytes are the hexadecimal decoding of: the configured passkey followed by
    "01" when the passkey has 12 characters; otherwise the passkey without
    its first two characters, followed by "01".  For the passkey
    "000102030405" the bytes are 00 01 02 03 04 05 01. *)
Theorem setPasskey_write st h :
  passkeyCharacteristic st = Some h ->
  exists value,
    setPasskey st
    = [ExecuteCommand {| command := WriteValueWithResponse PasskeySlot value;
                         name := "setPasskey"; maxRetries := 5 |}]
    /\ (String.length (_blindPasskey st) = 12%nat ->
        value = Buffer.from_hex (_blindPasskey st +:+ "01"))
    /\ (String.length (_blindPasskey st) <> 12%nat ->
        value = Buffer.from_hex (drop_first_two (_blindPasskey st) +:+ "01"))
    /\ (_blindPasskey st = "000102030405" ->
        value = [x00; x01; x02; x03; x04; x05; x01]).
Proof.
  intros Hh. eexists. unfold setPasskey. rewrite Hh. split; [reflexivity |].
  unfold encodePasskey. repeat split.
  - intros Hlen. rewrite Hlen. reflexivity.
  - intros Hlen. destruct (Nat.eqb_spec (String.length (_blindPasskey st)) 12);
      [contradiction |]. now rewrite slice_substring.
  - intros ->. vm_compute. reflexivity.
Qed.

Lemma setPasskey_write_witness :
  exists value,
    setPasskey (fst (onParentConnect (new "000102030405" 5) [PASSKEY_CHARACTERISTIC_UUID]))
    = [ExecuteCommand {| command := WriteValueWithResponse PasskeySlot value;
                         name := "setPasskey"; maxRetries := 5 |}]
    /\ value = [x00; x01; x02; x03; x04; x05; x01].
Proof.
  destruct (setPasskey_write
              (fst (onParentConnect (new "000102030405" 5) [PASSKEY_CHARACTERISTIC_UUID]))
              PASSKEY_CHARACTERISTIC_UUID eq_refl) as (value & Hcmd & _ & _ & Hbytes).
  exists value. split; [exact Hcmd | apply Hbytes; reflexivity].
Defined.

End PasskeyWrite.

(** ** Angle publications of the bridge *)

Section AnglePublications.
Import BlindMqtt Application Notions.

Lemma roundAngle_snapped angle : roundAngle angle = snapped angle.
Proof.
  unfold roundAngle, snapped.
  destruct (Z.leb_spec 190 angle), (Z.leb_spec angle 10); try reflexivity; lia.
Qed.

Lemma rounded_test angle :
  0 <= angle <= 200 ->
  (roundAngle angle <=? 10) || (190 <=? roundAngle angle)
  = ((0 <=? angle) && (angle <=? 10)) || ((190 <=? angle) && (angle <=? 200)).
Proof.
  intros Hr. unfold roundAngle.
  destruct (Z.leb_spec 190 angle) as [Hhi | Hhi].
  - cbn. destruct (Z.leb_spec 0 angle), (Z.leb_spec angle 10), (Z.leb_spec angle 200);
      cbn; try reflexivity; lia.
  - destruct (Z.leb_spec angle 10) as [Hlo | Hlo].
    + cbn. destruct (Z.leb_spec 0 angle); cbn; [reflexivity | lia].
    + destruct (Z.leb_spec 0 angle); cbn; [| lia].
      destruct (Z.leb_spec angle 10), (Z.leb_spec 190 angle); cbn; try reflexivity; lia.
Qed.

(** C8. For an angle carried by an angle-changed event of a configured
    blind, with the broker connected, the bridge posts on the tilt/state
    topic the angle snapped to 0 when at most 10 and to 200 when at least
    190, and then posts on the state topic "closed" when the angle lies in
    [0,10] or [190,200] and "open" otherwise. *)
Theorem angle_changed_publications app address blindConfig st buffer angle :
  In (Blind.Emit_angle_changed angle) (snd (Blind.onAngleChanged st buffer)) ->
  _getBlindConfig app address = Some blindConfig ->
  isMqttConnected app = true ->
  _onBlindAngleChanged app address angle
  = [json_post ("bt2mqtt/cover/" +:+ sanitizeMacAddress (mac blindConfig) +:+ "/tilt/state")
               (snapped angle);
     post ("bt2mqtt/cover/" +:+ sanitizeMacAddress (mac blindConfig) +:+ "/state")
          (cover_state angle)].
Proof.
  intros Hev Hcfg Hconn.
  apply angle_changed_inv in Hev as (_ & Hrange & _).
  unfold _onBlindAngleChanged. rewrite Hcfg.
  cbv zeta. rewrite rounded_test by exact Hrange.
  unfold _publishNumberMessage, _publishStringMessage, cover_state. rewrite Hconn.
  rewrite roundAngle_snapped.
  destruct (((0 <=? angle) && (angle <=? 10)) || ((190 <=? angle) && (angle <=? 200)));
    reflexivity.
Qed.

Lemma angle_changed_publications_witness :
  _onBlindAngleChanged
    {| blinds := [{| name := "Kitchen"; mac := "AA:BB:CC:DD:EE:FF";
                     passkey := "000102030405" |}];
       isMqttConnected := true |}
    "AA:BB:CC:DD:EE:FF" 195
  = [json_post "bt2mqtt/cover/AA_BB_CC_DD_EE_FF/tilt/state" 200;
     post "bt2mqtt/cover/AA_BB_CC_DD_EE_FF/state" "closed"].
Proof.
  exact (angle_changed_publications
           {| blinds := [{| name := "Kitchen"; mac := "AA:BB:CC:DD:EE:FF";
                            passkey := "000102030405" |}];
              isMqttConnected := true |}
           "AA:BB:CC:DD:EE:FF"
           {| name := "Kitchen"; mac := "AA:BB:CC:DD:EE:FF"; passkey := "000102030405" |}
           (Blind.new "000102030405" 5) [xc3] 195
           (or_introl eq_refl) eq_refl eq_refl).
Defined.

End AnglePublications.

(** ** The unlock handshake *)

Section Unlock.
Import Command Blind Notions.

Lemma toLowerCase_app a b :
  JS.toLowerCase (a +:+ b) = JS.toLowerCase a +:+ JS.toLowerCase b.
Proof.
  induction a as [| c a IH]; [reflexivity |].
  change (String (JS.lower_ascii c) (JS.toLowerCase (a +:+ b))
          = String (JS.lower_ascii c) (JS.toLowerCase a +:+ JS.toLowerCase b)).
  now rewrite IH.
Qed.

Lemma app_00_nonempty a : a +:+ "00" <> "".
Proof. destruct a; discriminate. Qed.

Lemma toLowerCase_nonempty s : JS.toLowerCase s <> "" -> s <> "".
Proof. intros H ->. now apply H. Qed.

(** The comparison made by [onPasskeyChanged] is the expected-echo test. *)
Lemma echo_test_iff configured buffer :
  truthy (Buffer.toString_hex buffer)
  && String.eqb (JS.toLowerCase (Buffer.toString_hex buffer))
                (JS.toLowerCase configured +:+ "00") = true
  <-> is_echo_of configured buffer.
Proof.
  unfold is_echo_of. rewrite toLowerCase_app. change (JS.toLowerCase "00") with "00".
  rewrite andb_true_iff, String.eqb_eq. split; [tauto |].
  intros He. split; [| exact He].
  unfold truthy. apply negb_true_iff, String.eqb_neq.
  apply toLowerCase_nonempty. rewrite He. apply app_00_nonempty.
Qed.

Lemma clearUnlockTimer_fields st :
  isUnlocked (_clearUnlockTimer st) = isUnlocked st
  /\ _blindPasskey (_clearUnlockTimer st) = _blindPasskey st
  /\ _unlockAttempts (_clearUnlockTimer st) = _unlockAttempts st
  /\ passkey (_clearUnlockTimer st) = passkey st
  /\ _unlockTimer (_clearUnlockTimer st) = false.
Proof.
  unfold _clearUnlockTimer. destruct (_unlockTimer st) eqn:E; cbn; auto.
Qed.

Lemma bind_fields cs st :
  isUnlocked (fold_left bindCharacteristic cs st) = isUnlocked st
  /\ _blindPasskey (fold_left bindCharacteristic cs st) = _blindPasskey st.
Proof.
  revert st. induction cs as [| c cs IH]; intros st; cbn; [auto |].
  destruct (IH (bindCharacteristic st c)) as [-> ->].
  unfold bindCharacteristic.
  destruct (String.eqb c ANGLE_CHARACTERISTIC_UUID); [cbn; auto |].
  destruct (String.eqb c PASSKEY_CHARACTERISTIC_UUID); cbn; auto.
Qed.

Lemma unlock_fields st :
  _blindPasskey (fst (unlock st)) = _blindPasskey st
  /\ (isUnlocked (fst (unlock st)) = true -> isUnlocked st = true).
Proof.
  unfold unlock. destruct (_unlockAttempts st <? _maxUnlockRetries st); cbn.
  - split; [reflexivity | discriminate].
  - destruct (clearUnlockTimer_fields st) as (-> & -> & _). auto.
Qed.

(** The configured passkey never changes. *)
Lemma step_blindPasskey st i : _blindPasskey (fst (step st i)) = _blindPasskey st.
Proof.
  destruct i as [cs | b | b | v | | |]; cbn.
  - unfold onParentConnect. rewrite (proj1 (unlock_fields _)).
    now rewrite (proj2 (bind_fields _ _)).
  - unfold onAngleChanged. destruct (Buffer.readUInt8 b 0) as [a|]; [| reflexivity].
    destruct (isValidAngle a); cbn; [| reflexivity].
    destruct (a =? angle st); reflexivity.
  - unfold onPasskeyChanged. cbv zeta.
    destruct (bool_decide (Some (Buffer.toString_hex b) = passkey st)); cbn; [reflexivity |].
    split_if; cbn; [| reflexivity].
    now rewrite (proj1 (proj2 (clearUnlockTimer_fields _))).
  - reflexivity.
  - destruct (_unlockTimer st); [apply unlock_fields | reflexivity].
  - unfold _startUnlockTimerIfLocked.
    split_if; reflexivity.
  - unfold _disconnect. cbn. now rewrite (proj1 (proj2 (clearUnlockTimer_fields _))).
Qed.

(** Only a Passkey notification carrying the expected echo raises
    [isUnlocked]. *)
Lemma step_unlocks st i :
  isUnlocked (fst (step st i)) = true ->
  isUnlocked st = true
  \/ exists buffer, i = PasskeyNotification buffer /\ is_echo_of (_blindPasskey st) buffer.
Proof.
  destruct i as [cs | b | b | v | | |]; cbn.
  - unfold onParentConnect. intros H. apply unlock_fields in H.
    rewrite (proj1 (bind_fields _ _)) in H. discriminate.
  - unfold onAngleChanged. destruct (Buffer.readUInt8 b 0) as [a|]; [| auto].
    destruct (isValidAngle a); cbn; [| auto].
    destruct (a =? angle st); cbn; auto.
  - unfold onPasskeyChanged. cbv zeta.
    destruct (bool_decide (Some (Buffer.toString_hex b) = passkey st)); cbn; [auto |].
    match goal with |- context [if ?c then _ else _] => destruct c eqn:E end; cbn.
    + intros _. right. exists b. split; [reflexivity |]. now apply echo_test_iff.
    + discriminate.
  - auto.
  - destruct (_unlockTimer st); [| auto]. intros H. left. now apply unlock_fields.
  - unfold _startUnlockTimerIfLocked.
    split_if; cbn; auto.
  - unfold _disconnect. cbn. discriminate.
Qed.

Lemma run_cons st i tr :
  fst (run st (i :: tr)) = fst (run (fst (step st i)) tr).
Proof.
  cbn. destruct (step st i) as [st1 e1]. cbn.
  destruct (run st1 tr) as [st2 e2]. reflexivity.
Qed.

Lemma run_unlocks tr : forall st,
  isUnlocked (fst (run st tr)) = true ->
  isUnlocked st = true
  \/ exists buffer, In (PasskeyNotification buffer) tr /\ is_echo_of (_blindPasskey st) buffer.
Proof.
  induction tr as [| i tr IH]; intros st H.
  - left. exact H.
  - rewrite run_cons in H. apply IH in H as [H | (buffer & Hin & Hecho)].
    + apply step_unlocks in H as [H | (buffer & -> & Hecho)]; [auto |].
      right. exists buffer. split; [left; reflexivity | exact Hecho].
    + right. exists buffer. split; [right; exact Hin |].
      now rewrite step_blindPasskey in Hecho.
Qed.

(** An echo that differs from the stored passkey unlocks the blind. *)
Lemma fresh_echo_unlocks st buffer :
  is_echo_of (_blindPasskey st) buffer ->
  passkey st <> Some (Buffer.toString_hex buffer) ->
  onPasskeyChanged st buffer
  = (_clearUnlockTimer
       (set_unlockAttempts
          (set_isUnlocked (set_passkey st (Some (Buffer.toString_hex buffer))) true) 0),
     [Emit_passkey_changed (Buffer.toString_hex buffer); Emit_unlocked]).
Proof.
  intros Hecho Hnew. unfold onPasskeyChanged. cbv zeta.
  rewrite bool_decide_eq_false_2 by congruence. cbn [negb].
  apply echo_test_iff in Hecho. cbn [set_passkey _blindPasskey].
  rewrite Hecho. reflexivity.
Qed.

(** C4, as stated, fails: after a reconnection the same echo arrives again,
    equals the stored passkey and is ignored; no "unlocked" event is emitted,
    the attempt counter stays at 1 and the blind stays locked. *)
Lemma repeated_echo_is_ignored :
  let echo := [x00; x01; x02; x03; x04; x05; x00] in
  let st := fst (run (new "000102030405" 5)
                     [ParentConnect [PASSKEY_CHARACTERISTIC_UUID];
                      PasskeyNotification echo;
                      ParentConnect [PASSKEY_CHARACTERISTIC_UUID]]) in
  is_echo_of "000102030405" echo
  /\ ~ In Emit_unlocked (snd (onPasskeyChanged st echo))
  /\ _unlockAttempts (fst (onPasskeyChanged st echo)) = 1
  /\ isUnlocked (fst (onPasskeyChanged st echo)) = false.
Proof.
  cbv zeta. repeat split.
  vm_compute. intros H. exact H.
Qed.

(** C4 (amended). In every state a blind reaches, [isUnlocked] is true only
    if a Passkey notification was received whose hexadecimal rendering is the
    configured passkey followed by "00", letter case apart.  On such a
    notification whose rendering differs from the stored passkey, the blind
    becomes unlocked, the attempt counter is reset to 0, the unlock timer is
    cancelled and the "unlocked" event is emitted. *)
Theorem unlocked_only_by_echo configured maxUnlockRetries tr :
  (isUnlocked (fst (run (new configured maxUnlockRetries) tr)) = true ->
   exists buffer, In (PasskeyNotification buffer) tr /\ is_echo_of configured buffer)
  /\ (forall buffer,
        let st := fst (run (new configured maxUnlockRetries) tr) in
        is_echo_of configured buffer ->
        passkey st <> Some (Buffer.toString_hex buffer) ->
        isUnlocked (fst (onPasskeyChanged st buffer)) = true
        /\ _unlockAttempts (fst (onPasskeyChanged st buffer)) = 0
        /\ _unlockTimer (fst (onPasskeyChanged st buffer)) = false
        /\ In Emit_unlocked (snd (onPasskeyChanged st buffer))).
Proof.
  assert (Hpk : forall tr0 st0, _blindPasskey (fst (run st0 tr0)) = _blindPasskey st0).
  { induction tr0 as [| i tr0 IH]; intros st0; [reflexivity |].
    rewrite run_cons, IH. apply step_blindPasskey. }
  split.
  - intros H. apply run_unlocks in H as [H | H]; [discriminate | exact H].
  - intros buffer st Hecho Hnew.
    rewrite fresh_echo_unlocks; [| now subst st; rewrite Hpk | exact Hnew].
    cbn [fst snd].
    destruct (clearUnlockTimer_fields
                (set_unlockAttempts
                   (set_isUnlocked (set_passkey st (Some (Buffer.toString_hex buffer))) true) 0))
      as (-> & _ & -> & _ & ->).
    cbn. repeat split. right. left. reflexivity.
Qed.

Lemma unlocked_only_by_echo_witness :
  exists buffer,
    In (PasskeyNotification buffer)
       [ParentConnect [PASSKEY_CHARACTERISTIC_UUID];
        PasskeyNotification [x00; x01; x02; x03; x04; x05; x00]]
    /\ is_echo_of "000102030405" buffer.
Proof.
  apply (proj1 (unlocked_only_by_echo "000102030405" 5
                  [ParentConnect [PASSKEY_CHARACTERISTIC_UUID];
                   PasskeyNotification [x00; x01; x02; x03; x04; x05; x00]])).
  vm_compute. reflexivity.
Defined.

End Unlock.

(** ** The single-flight command pump *)

Section Pump.
Import Command DeviceManager Notions.

Lemma dequeue_busy s : isExecuting s = true -> dequeue s = s.
Proof.
  intros H. unfold dequeue. rewrite H. cbn. now destruct (isDisposed s).
Qed.

Lemma dequeue_disposed s : isDisposed s = true -> dequeue s = s.
Proof. intros H. unfold dequeue. now rewrite H. Qed.

(** What [dequeue] does when it enters the pump. *)
Lemma dequeue_enters s c rest :
  isDisposed s = false -> isExecuting s = false ->
  bluetoothCommandQueue s = c :: rest ->
  dequeue s
  = set_awaiting (set_queue (set_isExecuting s true) rest) (awaiting s ++ [bump c]).
Proof.
  intros Hd He Hq. unfold dequeue. rewrite Hd, He, Hq.
  cbn [negb andb length Nat.ltb Nat.leb]. cbv zeta.
  change (bluetoothCommandQueue (set_isExecuting s true)) with (bluetoothCommandQueue s).
  rewrite Hq. reflexivity.
Qed.

Lemma dequeue_cases s :
  dequeue s = s
  \/ exists c rest,
       isDisposed s = false /\ isExecuting s = false
       /\ bluetoothCommandQueue s = c :: rest
       /\ dequeue s
          = set_awaiting (set_queue (set_isExecuting s true) rest) (awaiting s ++ [bump c]).
Proof.
  destruct (isDisposed s) eqn:Hd; [left; now apply dequeue_disposed |].
  destruct (isExecuting s) eqn:He; [left; now apply dequeue_busy |].
  destruct (bluetoothCommandQueue s) as [| c rest] eqn:Hq.
  - left. unfold dequeue. rewrite Hd, He, Hq. reflexivity.
  - right. exists c, rest. repeat split; try assumption.
    apply dequeue_enters; assumption.
Qed.

Lemma dequeue_single_flight s : single_flight s -> single_flight (dequeue s).
Proof.
  intros [Hlen Hidle].
  destruct (dequeue_cases s) as [-> | (c & rest & _ & He & _ & ->)]; [now split |].
  split; cbn.
  - rewrite (Hidle He). cbn. lia.
  - discriminate.
Qed.

Lemma settle_single_flight s k r : single_flight s -> single_flight (settle s k r).
Proof.
  intros [Hlen Hidle]. unfold settle.
  destruct (awaiting s !! k) as [q |] eqn:Hk; [| now split].
  assert (Hgone : delete k (awaiting s) = []).
  { apply length_zero_iff_nil.
    rewrite length_delete by (now exists q). lia. }
  destruct r as [| [message |]]; cbv zeta.
  - split; cbn; rewrite Hgone; [cbn; lia | reflexivity].
  - destruct (negb (JS.includes message "Not connected"));
      [destruct (retryCount q <? maxRetries (base q)) |];
      split; cbn; rewrite Hgone; cbn; auto with lia.
  - split; cbn; rewrite Hgone; [cbn; lia | reflexivity].
Qed.

Lemma executeCommand_single_flight s c : single_flight s -> single_flight (executeCommand s c).
Proof. intros H. apply dequeue_single_flight. exact H. Qed.

Lemma reconnectDevice_single_flight s a : single_flight s -> single_flight (reconnectDevice s a).
Proof.
  intros H. unfold reconnectDevice.
  destruct (shouldReconnect s a); [| exact H].
  cbv zeta. split_if.
  - apply executeCommand_single_flight. exact H.
  - exact H.
Qed.

Lemma step_single_flight s i : single_flight s -> single_flight (step s i).
Proof.
  intros H. destruct i as [c | | k r | | a |]; cbn.
  - now apply executeCommand_single_flight.
  - now apply dequeue_single_flight.
  - now apply settle_single_flight.
  - unfold runImmediate. destruct (immediates s); [exact H |].
    apply dequeue_single_flight. exact H.
  - now apply reconnectDevice_single_flight.
  - exact H.
Qed.

Lemma run_single_flight tr : forall s, single_flight s -> single_flight (run s tr).
Proof.
  induction tr as [| i tr IH]; intros s H; [exact H |].
  cbn. apply IH. now apply step_single_flight.
Qed.

Lemma dequeue_keeps_executing s : isExecuting s = true -> isExecuting (dequeue s) = true.
Proof. intros H. now rewrite dequeue_busy. Qed.

(** Only the completion of an invocation lowers [isExecuting]. *)
Lemma step_lowers_isExecuting s i :
  isExecuting s = true -> isExecuting (step s i) = false ->
  exists k r q, i = Settle k r /\ awaiting s !! k = Some q.
Proof.
  intros Hup Hdown. destruct i as [c | | k r | | a |]; cbn in Hdown.
  - unfold executeCommand in Hdown. rewrite dequeue_busy in Hdown by exact Hup.
    cbn in Hdown. congruence.
  - rewrite dequeue_busy in Hdown by exact Hup. congruence.
  - exists k, r. unfold settle in Hdown.
    destruct (awaiting s !! k) as [q |]; [now exists q | congruence].
  - unfold runImmediate in Hdown. destruct (immediates s); [congruence |].
    rewrite dequeue_busy in Hdown by exact Hup. cbn in Hdown. congruence.
  - unfold reconnectDevice in Hdown.
    destruct (shouldReconnect s a); [| congruence].
    cbv zeta in Hdown.
    match type of Hdown with context [if ?c then _ else _] => destruct c end.
    + unfold executeCommand in Hdown. rewrite dequeue_busy in Hdown by exact Hup.
      cbn in Hdown. congruence.
    + cbn in Hdown. congruence.
  - cbn in Hdown. congruence.
Qed.

(** C2. Whatever the sequence of calls and completions on a device manager,
    at most one queued command is executing.  [dequeue] leaves the state
    untouched while [isExecuting] is raised; when it invokes a command the
    flag is raised; and the flag is lowered only by the completion of an
    invocation. *)
Theorem at_most_one_command_executing maxConnectRetries0 adapter0 tr :
  let s := run (new maxConnectRetries0 adapter0) tr in
  (length (awaiting s) <= 1)%nat
  /\ (awaiting s <> [] -> isExecuting s = true)
  /\ (isExecuting s = true -> dequeue s = s)
  /\ (awaiting (dequeue s) <> awaiting s -> isExecuting (dequeue s) = true)
  /\ (forall i, isExecuting s = true -> isExecuting (step s i) = false ->
        exists k r q, i = Settle k r /\ awaiting s !! k = Some q).
Proof.
  cbv zeta.
  assert (H : single_flight (run (new maxConnectRetries0 adapter0) tr)).
  { apply run_single_flight. split; cbn; [lia | reflexivity]. }
  destruct H as [Hlen Hidle].
  split; [exact Hlen |]. split; [| split; [| split]].
  - intros Hne. destruct (isExecuting _) eqn:He; [reflexivity |].
    exfalso. apply Hne. now apply Hidle.
  - apply dequeue_busy.
  - intros Hch.
    destruct (dequeue_cases (run (new maxConnectRetries0 adapter0) tr))
      as [Heq | (c & rest & _ & _ & _ & ->)]; [| reflexivity].
    rewrite Heq in Hch. contradiction.
  - intros i. apply step_lowers_isExecuting.
Qed.

Lemma at_most_one_command_executing_witness :
  let s := run (new 10 None)
               [ExecuteCommand {| command := WriteValueWithResponse AngleSlot [x64];
                                  name := "setAngle"; maxRetries := 5 |};
                ExecuteCommand {| command := ReadValue PasskeySlot 0;
                                  name := "getPasskey"; maxRetries := 5 |}] in
  isExecuting s = true /\ dequeue s = s /\ length (bluetoothCommandQueue s) = 1%nat.
Proof.
  cbv zeta. split; [reflexivity |]. split; [| reflexivity].
  apply (at_most_one_command_executing 10 None
           [ExecuteCommand {| command := WriteValueWithResponse AngleSlot [x64];
                              name := "setAngle"; maxRetries := 5 |};
            ExecuteCommand {| command := ReadValue PasskeySlot 0;
                              name := "getPasskey"; maxRetries := 5 |}]).
  reflexivity.
Defined.

(** C3. A command is invoked with its retry count already incremented.
    When its invocation fails with an error message, the command is dropped
    if the message contains "Not connected"; otherwise it goes back to the
    head of the queue if its retry count is below [maxRetries], and is
    dropped if not.  In each case [isExecuting] is lowered and one deferred
    re-entry of the pump is scheduled. *)
Theorem failed_command_requeue s c rest s' k q message :
  (isDisposed s = false -> isExecuting s = false ->
   bluetoothCommandQueue s = c :: rest ->
   awaiting (dequeue s) = awaiting s ++ [bump c]
   /\ retryCount (bump c) = retryCount c + 1
   /\ bluetoothCommandQueue (dequeue s) = rest
   /\ isExecuting (dequeue s) = true)
  /\ (awaiting s' !! k = Some q ->
      bluetoothCommandQueue (settle s' k (Rejected (Some message)))
      = (if JS.includes message "Not connected" then bluetoothCommandQueue s'
         else if retryCount q <? maxRetries (base q)
              then q :: bluetoothCommandQueue s'
              else bluetoothCommandQueue s')
      /\ awaiting (settle s' k (Rejected (Some message))) = delete k (awaiting s')
      /\ isExecuting (settle s' k (Rejected (Some message))) = false
      /\ immediates (settle s' k (Rejected (Some message))) = S (immediates s')).
Proof.
  split.
  - intros Hd He Hq. rewrite (dequeue_enters s c rest Hd He Hq). cbn. auto.
  - intros Hk. unfold settle. rewrite Hk. cbv zeta.
    destruct (JS.includes message "Not connected"); cbn [negb].
    + cbn. auto.
    + destruct (retryCount q <? maxRetries (base q)); cbn; auto.
Qed.

Lemma failed_command_requeue_witness :
  let c := {| command := WriteValueWithResponse AngleSlot [x64];
              name := "setAngle"; maxRetries := 2 |} in
  let s' := run (new 10 None) [ExecuteCommand c] in
  awaiting s' = [{| base := c; retryCount := 1 |}]
  /\ bluetoothCommandQueue (settle s' 0 (Rejected (Some "Device busy")))
     = [{| base := c; retryCount := 1 |}]
  /\ isExecuting (settle s' 0 (Rejected (Some "Device busy"))) = false
  /\ immediates (settle s' 0 (Rejected (Some "Device busy"))) = 1%nat.
Proof.
  cbv zeta.
  pose (c := {| command := WriteValueWithResponse AngleSlot [x64];
                name := "setAngle"; maxRetries := 2 |}).
  destruct (failed_command_requeue
              (set_queue (new 10 None) [{| base := c; retryCount := 0 |}])
              {| base := c; retryCount := 0 |} []
              (run (new 10 None) [ExecuteCommand c]) 0
              {| base := c; retryCount := 1 |} "Device busy") as [Hentry Hfail].
  destruct (Hentry eq_refl eq_refl eq_refl) as (Hinv & _).
  destruct (Hfail eq_refl) as (Hq & _ & He & Hi).
  split; [exact Hinv |]. split; [exact Hq |]. split; [exact He | exact Hi].
Defined.

End Pump.

(** ** The reconnect policy *)

Section Reconnect.
Import Command DeviceManager.

(** When [reconnectDevice] goes ahead, in terms of the counter before the
    call (0 when the address has no entry). *)
Lemma shouldReconnect_iff s address :
  shouldReconnect s address = true
  <-> maxConnectRetries s = -1
      \/ or_zero (_connectRetryCounts s !! address) = 0
      \/ or_zero (_connectRetryCounts s !! address) <= maxConnectRetries s.
Proof.
  unfold shouldReconnect, falsy, le_num, or_zero.
  rewrite !orb_true_iff, Z.eqb_eq.
  destruct (_connectRetryCounts s !! address) as [n |].
  - rewrite Z.eqb_eq, Z.leb_le. tauto.
  - intuition congruence.
Qed.

Lemma reconnectDevice_skips s address :
  shouldReconnect s address = false -> reconnectDevice s address = s.
Proof. intros H. unfold reconnectDevice. now rewrite H. Qed.


(** With the cap at -1 every call goes ahead. *)
Lemma reconnectDevice_unlimited s address :
  maxConnectRetries s = -1 -> shouldReconnect s address = true.
Proof. intros H. apply shouldReconnect_iff. now left. Qed.

(** C9 (at a counter equal to the cap). With a cap of 3 and the address
    still available, three calls of [reconnectDevice] bring the counter to 3;
    the fourth call, made with the counter at the cap, still goes ahead: the
    counter becomes 4 and one more "Reconnect" command is queued.  Only the
    fifth call is skipped. *)
Theorem reconnectDevice_at_cap :
  let address := "AA:BB:CC:DD:EE:FF" in
  let s3 := run (new 3 (Some [address]))
                [ReconnectDevice address; ReconnectDevice address;
                 ReconnectDevice address] in
  let s4 := reconnectDevice s3 address in
  _connectRetryCounts s3 !! address = Some 3
  /\ shouldReconnect s3 address = true
  /\ _connectRetryCounts s4 !! address = Some 4
  /\ bluetoothCommandQueue s4
     = bluetoothCommandQueue s3 ++ [{| base := reconnectCommand address; retryCount := 0 |}]
  /\ reconnectDevice s4 address = s4.
Proof.
  cbv zeta. repeat split; vm_compute; reflexivity.
Qed.

End Reconnect.

(** ** Device identifiers of the adapter *)

Section AdapterIdentifiers.
Import Adapter.

Lemma replaceAll_inverse a b s :
  ~ In b (list_ascii_of_string s) ->
  Text.replaceAll b a (Text.replaceAll a b s) = s.
Proof.
  induction s as [| c s IH]; intros Hb; [reflexivity |].
  cbn in Hb. cbn [Text.replaceAll]. rewrite IH by tauto.
  destruct (Ascii.eqb_spec c a) as [-> | Hca].
  - now rewrite Ascii.eqb_refl.
  - destruct (Ascii.eqb_spec c b) as [-> | Hcb]; [tauto | reflexivity].
Qed.

Lemma sanitizeMacAddress_replaceAll s :
  BlindMqtt.sanitizeMacAddress s = Text.replaceAll ":" "_" s.
Proof. induction s as [| c s IH]; cbn; [reflexivity | now rewrite IH]. Qed.

Lemma uuid_of_device_id uuid :
  ~ In "_"%char (list_ascii_of_string uuid) ->
  deserializeDeviceIdToUuid (serializeUuidToDeviceId uuid) = uuid.
Proof.
  intros H. unfold deserializeDeviceIdToUuid, serializeUuidToDeviceId.
  change (Text.substring_from 4 ("dev_" +:+ Text.replaceAll ":" "_" uuid))
    with (Text.replaceAll ":" "_" uuid).
  now apply replaceAll_inverse.
Qed.

(** A device identifier built from an address without underscores reads
    back as that address. *)
Theorem deserialize_serialize uuid :
  ~ In "_"%char (list_ascii_of_string uuid) ->
  deserializeDeviceIdToUuid (serializeUuidToDeviceId uuid) = uuid.
Proof. apply uuid_of_device_id. Qed.

Lemma deserialize_serialize_witness :
  deserializeDeviceIdToUuid (serializeUuidToDeviceId "AA:BB:CC:DD:EE:FF")
  = "AA:BB:CC:DD:EE:FF".
Proof.
  apply deserialize_serialize. vm_compute. intuition discriminate.
Defined.

(** An identifier "dev_..." without colons is rebuilt from the address it
    reads as. *)
Theorem serialize_deserialize rest :
  ~ In ":"%char (list_ascii_of_string rest) ->
  serializeUuidToDeviceId (deserializeDeviceIdToUuid ("dev_" +:+ rest)) = "dev_" +:+ rest.
Proof.
  intros H. unfold deserializeDeviceIdToUuid, serializeUuidToDeviceId.
  change (Text.substring_from 4 ("dev_" +:+ rest)) with rest.
  now rewrite replaceAll_inverse.
Qed.

Lemma serialize_deserialize_witness :
  serializeUuidToDeviceId (deserializeDeviceIdToUuid "dev_AA_BB_CC_DD_EE_FF")
  = "dev_AA_BB_CC_DD_EE_FF".
Proof.
  apply (serialize_deserialize "AA_BB_CC_DD_EE_FF"). vm_compute. intuition discriminate.
Defined.

Lemma includes_In ids id : includes ids id = true <-> In id ids.
Proof.
  unfold includes. rewrite existsb_exists. split.
  - intros (x & Hin & Heq). apply String.eqb_eq in Heq. now subst.
  - intros Hin. exists id. split; [exact Hin | apply String.eqb_refl].
Qed.


Lemma addAvailable_NoDup s id :
  NoDup (_availableDeviceIds s) ->
  NoDup (_availableDeviceIds (fst (_addAvailableDevice s id))).
Proof.
  intros H. unfold _addAvailableDevice.
  destruct (includes (_availableDeviceIds s) id) eqn:E; cbn; [exact H |].
  apply NoDup_app. split; [exact H |]. split.
  - intros x Hx Hin. apply list_elem_of_In in Hx, Hin.
    destruct Hin as [<- | []]. apply includes_In in Hx. congruence.
  - apply NoDup_singleton.
Qed.

Lemma removeDevice_ids s id :
  _availableDeviceIds (fst (removeDevice s id))
  = filter (fun x => negb (String.eqb x id)) (_availableDeviceIds s).
Proof.
  unfold removeDevice. cbv zeta.
  destruct (_devices s !! deserializeDeviceIdToUuid id); reflexivity.
Qed.

Lemma step_NoDup s i :
  NoDup (_availableDeviceIds s) -> NoDup (_availableDeviceIds (fst (step s i))).
Proof.
  intros H. destruct i as [p names | p names | u | d]; cbn.
  - unfold _onDBusInterfacesAdded. destruct (includes names _); [| exact H].
    now apply addAvailable_NoDup.
  - unfold _onDBusInterfacesRemoved. destruct (includes names _); [| exact H].
    rewrite removeDevice_ids. now apply NoDup_filter.
  - unfold getDevice. destruct (_isInitialized s); cbn; [| exact H].
    destruct (_devices s !! u); [exact H |].
    destruct (includes _ _); exact H.
  - rewrite removeDevice_ids. now apply NoDup_filter.
Qed.

Lemma adapter_run_cons s i tr :
  fst (run s (i :: tr)) = fst (run (fst (step s i)) tr).
Proof.
  cbn. destruct (step s i) as [s1 e1]. cbn.
  destruct (run s1 tr) as [s2 e2]. reflexivity.
Qed.

(** Whatever is added, removed or fetched, the list of available device
    identifiers never holds an identifier twice. *)
Theorem available_ids_NoDup tr : forall s,
  NoDup (_availableDeviceIds s) ->
  NoDup (_availableDeviceIds (fst (run s tr))).
Proof.
  induction tr as [| i tr IH]; intros s H; [exact H |].
  rewrite adapter_run_cons. apply IH. now apply step_NoDup.
Qed.

Lemma available_ids_NoDup_witness :
  NoDup (_availableDeviceIds
           (fst (run {| _availableDeviceIds := []; _devices := ∅; _isInitialized := true |}
                     [InterfacesAdded "/org/bluez/hci0/dev_AA_BB_CC_DD_EE_FF"
                                      ["org.bluez.Device1"];
                      InterfacesAdded "/org/bluez/hci0/dev_AA_BB_CC_DD_EE_FF"
                                      ["org.bluez.Device1"]]))).
Proof.
  apply available_ids_NoDup. cbn. apply NoDup_nil. exact I.
Defined.

(** An identifier is announced by "device-added" exactly when it was not
    yet available, with the address it reads as; announcing it again right
    away does nothing. *)
Theorem device_added_once s id :
  (snd (_addAvailableDevice s id) <> [] <-> ~ In id (_availableDeviceIds s))
  /\ (forall e, In e (snd (_addAvailableDevice s id)) ->
        e = device_added (deserializeDeviceIdToUuid id))
  /\ In id (_availableDeviceIds (fst (_addAvailableDevice s id)))
  /\ _addAvailableDevice (fst (_addAvailableDevice s id)) id
     = (fst (_addAvailableDevice s id), []).
Proof.
  assert (Hin : In id (_availableDeviceIds (fst (_addAvailableDevice s id)))).
  { unfold _addAvailableDevice.
    destruct (includes (_availableDeviceIds s) id) eqn:E; cbn.
    - now apply includes_In.
    - apply in_or_app. right. now left. }
  split; [| split; [| split]].
  - unfold _addAvailableDevice.
    destruct (includes (_availableDeviceIds s) id) eqn:E; cbn.
    + apply includes_In in E. split; [congruence | tauto].
    + split; [| discriminate]. intros _ H. apply includes_In in H. congruence.
  - intros e. unfold _addAvailableDevice.
    destruct (includes (_availableDeviceIds s) id); cbn; [tauto |].
    intros [<- | []]. reflexivity.
  - exact Hin.
  - apply includes_In in Hin.
    unfold _addAvailableDevice at 1. now rewrite Hin.
Qed.


End AdapterIdentifiers.

(** ** Decoding the configured blinds *)

Section ConfigDecoding.
Import Config.

Variable base64 : string -> Buffer.t.

(** The two characters [toHex] produces for a byte. *)
Lemma toHex_byte (b : byte) :
  exists h l,
    toHex (Byte.to_N b) = String h (String l "")
    /\ isHexDigit h = true /\ isHexDigit l = true
    /\ Text.upper_ascii h = h /\ Text.upper_ascii l = l.
Proof.
  destruct b; eexists _, _; (split; [reflexivity |]); repeat split; reflexivity.
Qed.

Lemma from_hex_toHex (b : byte) r :
  Buffer.from_hex (toHex (Byte.to_N b) +:+ r) = b :: Buffer.from_hex r.
Proof. destruct b; reflexivity. Qed.



Lemma string_app_cons x (a b : string) : String x a +:+ b = String x (a +:+ b).
Proof. reflexivity. Qed.

Lemma string_app_nil_r (a : string) : a +:+ "" = a.
Proof.
  induction a as [| x a IH]; [reflexivity |].
  now rewrite string_app_cons, IH.
Qed.

Lemma string_app_assoc (a b c : string) : (a +:+ b) +:+ c = a +:+ (b +:+ c).
Proof.
  induction a as [| x a IH]; [reflexivity |].
  now rewrite !string_app_cons, IH.
Qed.

Lemma string_app_length (a b : string) :
  String.length (a +:+ b) = (String.length a + String.length b)%nat.
Proof.
  induction a as [| x a IH]; [reflexivity |].
  rewrite string_app_cons. cbn [String.length]. now rewrite IH.
Qed.

Lemma join_empty_cons p rest : Text.join "" (p :: rest) = p +:+ Text.join "" rest.
Proof.
  destruct rest as [| q rest]; cbn [Text.join].
  - symmetry. apply string_app_nil_r.
  - reflexivity.
Qed.

Lemma toHex_length (b : byte) : String.length (toHex (Byte.to_N b)) = 2%nat.
Proof. destruct (toHex_byte b) as (h & l & -> & _). reflexivity. Qed.

Lemma from_hex_join (l : Buffer.t) r :
  Buffer.from_hex (Text.join "" (map (fun d => toHex (Byte.to_N d)) l) +:+ r)
  = l ++ Buffer.from_hex r.
Proof.
  induction l as [| b l IH]; [reflexivity |].
  cbn [map]. rewrite join_empty_cons, string_app_assoc, from_hex_toHex, IH.
  reflexivity.
Qed.






Lemma decodePasskey_present encoded :
  encoded <> "" ->
  decodePasskey base64 (Some encoded)
  = Text.join "" (map (fun d => toHex (Byte.to_N d)) (base64 encoded)).
Proof. intros H. destruct encoded; [contradiction | reflexivity]. Qed.

(** The passkey string decoded from the configuration, read as
    hexadecimal, gives back the decoded bytes. *)
Theorem decodePasskey_from_hex encoded :
  encoded <> "" ->
  Buffer.from_hex (decodePasskey base64 (Some encoded)) = base64 encoded.
Proof.
  intros H. rewrite decodePasskey_present by exact H.
  rewrite <- (string_app_nil_r (Text.join _ _)), from_hex_join.
  apply app_nil_r.
Qed.


Lemma bind_rest cs : forall st,
  Blind.passkey (fold_left Blind.bindCharacteristic cs st) = Blind.passkey st
  /\ Blind._unlockAttempts (fold_left Blind.bindCharacteristic cs st) = Blind._unlockAttempts st
  /\ Blind._maxUnlockRetries (fold_left Blind.bindCharacteristic cs st)
     = Blind._maxUnlockRetries st
  /\ Blind._unlockTimer (fold_left Blind.bindCharacteristic cs st) = Blind._unlockTimer st
  /\ Blind.angle (fold_left Blind.bindCharacteristic cs st) = Blind.angle st.
Proof.
  induction cs as [| c cs IH]; intros st; cbn [fold_left]; [auto 6 |].
  destruct (IH (Blind.bindCharacteristic st c)) as (-> & -> & -> & -> & ->).
  unfold Blind.bindCharacteristic. repeat split_if; cbn; auto 6.
Qed.



End ConfigDecoding.

Lemma decodePasskey_from_hex_witness :
  Buffer.from_hex
    (Config.decodePasskey (fun _ => [x00; x01; x02; x03; x04; x05]) (Some "AAECAwQF"))
  = [x00; x01; x02; x03; x04; x05].
Proof.
  apply (decodePasskey_from_hex (fun _ => [x00; x01; x02; x03; x04; x05]) "AAECAwQF").
  discriminate.
Defined.


Section ConfigMac.
Import Config.

Variable base64 : string -> Buffer.t.

Lemma matchGroups_length n : forall s,
  matchGroups n s = true -> String.length s = (3 * n)%nat.
Proof.
  induction n as [| n IH]; intros s H.
  - apply String.eqb_eq in H. now subst.
  - destruct s as [| c [| a [| b r]]]; try discriminate.
    cbn [matchGroups] in H. rewrite !andb_true_iff in H.
    destruct H as (_ & H). apply IH in H. cbn [String.length]. lia.
Qed.

Lemma MATCH_MAC_ADDRESS_length s : MATCH_MAC_ADDRESS s = true -> String.length s = 17%nat.
Proof.
  destruct s as [| a [| b r]]; try discriminate.
  unfold MATCH_MAC_ADDRESS. rewrite !andb_true_iff. intros (_ & H).
  apply matchGroups_length in H. cbn [String.length]. lia.
Qed.

Lemma join_colon_cons p q rest :
  Text.join ":" (p :: q :: rest) = p +:+ ":" +:+ Text.join ":" (q :: rest).
Proof. reflexivity. Qed.

Lemma length_join_colon (l : Buffer.t) :
  l <> [] ->
  String.length (Text.join ":" (map (fun d => toHex (Byte.to_N d)) l))
  = (3 * length l - 1)%nat.
Proof.
  induction l as [| b [| b' l] IH]; intros Hne; [contradiction | |].
  - cbn [map Text.join]. now rewrite toHex_length.
  - cbn [map] in *. rewrite join_colon_cons, !string_app_length, toHex_length.
    rewrite IH by discriminate. cbn [length String.length]. lia.
Qed.

Lemma decodeMacAddress_present encoded :
  encoded <> "" ->
  decodeMacAddress base64 (Some encoded)
  = Text.join ":" (rev (map (fun d => toHex (Byte.to_N d)) (base64 encoded))).
Proof. intros H. destruct encoded; [contradiction | reflexivity]. Qed.

Lemma MATCH_six (b1 b2 b3 b4 b5 b6 : byte) :
  MATCH_MAC_ADDRESS
    (Text.join ":" (map (fun d => toHex (Byte.to_N d)) [b1; b2; b3; b4; b5; b6]))
  = true.
Proof.
  cbn [map].
  destruct (toHex_byte b1) as (h1 & l1 & -> & Hh1 & Hl1 & _).
  destruct (toHex_byte b2) as (h2 & l2 & -> & Hh2 & Hl2 & _).
  destruct (toHex_byte b3) as (h3 & l3 & -> & Hh3 & Hl3 & _).
  destruct (toHex_byte b4) as (h4 & l4 & -> & Hh4 & Hl4 & _).
  destruct (toHex_byte b5) as (h5 & l5 & -> & Hh5 & Hl5 & _).
  destruct (toHex_byte b6) as (h6 & l6 & -> & Hh6 & Hl6 & _).
  cbv [Text.join String.append MATCH_MAC_ADDRESS matchGroups].
  rewrite Hh1, Hl1, Hh2, Hl2, Hh3, Hl3, Hh4, Hl4, Hh5, Hl5, Hh6, Hl6.
  reflexivity.
Qed.

(** An encoded MAC address yields a string the configuration accepts
    exactly when it decodes to six bytes. *)
Theorem decodeMacAddress_accepted_iff encoded :
  encoded <> "" ->
  MATCH_MAC_ADDRESS (decodeMacAddress base64 (Some encoded)) = true
  <-> length (base64 encoded) = 6%nat.
Proof.
  intros Hne. rewrite decodeMacAddress_present by exact Hne.
  rewrite <- map_rev. split.
  - intros H. apply MATCH_MAC_ADDRESS_length in H.
    destruct (rev (base64 encoded)) as [| b l] eqn:E.
    + discriminate.
    + rewrite length_join_colon in H by discriminate.
      rewrite <- length_rev, E. cbn [length] in *. lia.
  - intros Hlen. rewrite <- length_rev in Hlen.
    destruct (rev (base64 encoded)) as [| b1 [| b2 [| b3 [| b4 [| b5 [| b6 [| b7 l]]]]]]];
      try discriminate.
    apply MATCH_six.
Qed.

End ConfigMac.

Lemma decodeMacAddress_accepted_iff_witness :
  Config.MATCH_MAC_ADDRESS
    (Config.decodeMacAddress (fun _ => [xff; xee; xdd; xcc; xbb; xaa]) (Some "/+7dzLuq"))
  = true.
Proof.
  apply (decodeMacAddress_accepted_iff (fun _ => [xff; xee; xdd; xcc; xbb; xaa]) "/+7dzLuq").
  - discriminate.
  - reflexivity.
Defined.

(** ** The configured blinds and the routing of inbound messages *)

Section ConfiguredBlinds.
Import Config.

Variable base64 : string -> Buffer.t.

Lemma hex_upper c :
  isHexDigit c = true ->
  isHexDigit (Text.upper_ascii c) = true
  /\ Text.upper_ascii (Text.upper_ascii c) = Text.upper_ascii c
  /\ Text.upper_ascii c <> "_"%char.
Proof.
  destruct c as [[] [] [] [] [] [] [] []]; intros H; vm_compute in H; try discriminate H;
    repeat split; try reflexivity; discriminate.
Qed.

Lemma hex_not_colon c : isHexDigit c = true -> Ascii.eqb c ":" = false.
Proof.
  intros H. destruct (Ascii.eqb_spec c ":") as [-> | _]; [discriminate H | reflexivity].
Qed.

Lemma matchGroups_step k s :
  matchGroups (S k) s = true ->
  exists a b r, s = String ":" (String a (String b r))
                /\ isHexDigit a = true /\ isHexDigit b = true /\ matchGroups k r = true.
Proof.
  destruct s as [| c [| a [| b r]]]; try discriminate.
  cbn [matchGroups]. rewrite !andb_true_iff. intros (((Hc & Ha) & Hb) & Hr).
  apply Ascii.eqb_eq in Hc. subst c. now exists a, b, r.
Qed.

(** The shape of a string accepted by [MATCH_MAC_ADDRESS]. *)
Lemma MATCH_MAC_ADDRESS_shape s :
  MATCH_MAC_ADDRESS s = true ->
  exists a1 a2 b1 b2 c1 c2 d1 d2 e1 e2 f1 f2,
    s = String a1 (String a2 (String ":" (String b1 (String b2 (String ":"
         (String c1 (String c2 (String ":" (String d1 (String d2 (String ":"
         (String e1 (String e2 (String ":" (String f1 (String f2 ""))))))))))))))))
    /\ Forall (fun c => isHexDigit c = true) [a1; a2; b1; b2; c1; c2; d1; d2; e1; e2; f1; f2].
Proof.
  destruct s as [| a1 [| a2 r]]; try discriminate.
  unfold MATCH_MAC_ADDRESS. rewrite !andb_true_iff. intros ((Ha1 & Ha2) & H).
  apply matchGroups_step in H as (b1 & b2 & r1 & -> & Hb1 & Hb2 & H).
  apply matchGroups_step in H as (c1 & c2 & r2 & -> & Hc1 & Hc2 & H).
  apply matchGroups_step in H as (d1 & d2 & r3 & -> & Hd1 & Hd2 & H).
  apply matchGroups_step in H as (e1 & e2 & r4 & -> & He1 & He2 & H).
  apply matchGroups_step in H as (f1 & f2 & r5 & -> & Hf1 & Hf2 & H).
  apply String.eqb_eq in H. subst r5.
  exists a1, a2, b1, b2, c1, c2, d1, d2, e1, e2, f1, f2.
  split; [reflexivity |]. repeat constructor; assumption.
Qed.

Lemma MATCH_MAC_ADDRESS_no_underscore s :
  MATCH_MAC_ADDRESS s = true -> ~ In "_"%char (list_ascii_of_string s).
Proof.
  intros H.
  apply MATCH_MAC_ADDRESS_shape in H
    as (a1 & a2 & b1 & b2 & c1 & c2 & d1 & d2 & e1 & e2 & f1 & f2 & -> & Hall).
  cbn [list_ascii_of_string In]. intros Hin.
  repeat match goal with
         | H : Forall _ (_ :: _) |- _ => apply Forall_cons_1 in H as [? H]
         end.
  repeat destruct Hin as [Hin | Hin];
    try discriminate Hin; try (subst; discriminate); try contradiction.
Qed.

Lemma MATCH_MAC_ADDRESS_upper s :
  MATCH_MAC_ADDRESS s = true ->
  MATCH_MAC_ADDRESS (Text.toUpperCase s) = true
  /\ Text.toUpperCase (Text.toUpperCase s) = Text.toUpperCase s.
Proof.
  intros H.
  apply MATCH_MAC_ADDRESS_shape in H
    as (a1 & a2 & b1 & b2 & c1 & c2 & d1 & d2 & e1 & e2 & f1 & f2 & -> & Hall).
  assert (Hup : Forall (fun c => isHexDigit (Text.upper_ascii c) = true
                                 /\ Text.upper_ascii (Text.upper_ascii c)
                                    = Text.upper_ascii c)
                       [a1; a2; b1; b2; c1; c2; d1; d2; e1; e2; f1; f2]).
  { eapply Forall_impl; [exact Hall |]. intros c Hc. cbv beta in Hc.
    apply hex_upper in Hc. tauto. }
  clear Hall.
  repeat match goal with
         | H : Forall _ (_ :: _) |- _ => apply Forall_cons_1 in H as [[? ?] H]
         end.
  cbn [Text.toUpperCase]. do 2 change (Text.upper_ascii ":") with ":"%char.
  split.
  - cbn [MATCH_MAC_ADDRESS matchGroups]. rewrite Ascii.eqb_refl.
    repeat match goal with
           | H : isHexDigit _ = true |- _ => rewrite H; clear H
           end.
    reflexivity.
  - congruence.
Qed.

Lemma addBlind_valid blinds blind :
  Forall (fun b => MATCH_MAC_ADDRESS (BlindMqtt.mac b) = true
                   /\ Text.toUpperCase (BlindMqtt.mac b) = BlindMqtt.mac b) blinds ->
  Forall (fun b => MATCH_MAC_ADDRESS (BlindMqtt.mac b) = true
                   /\ Text.toUpperCase (BlindMqtt.mac b) = BlindMqtt.mac b)
         (addBlind base64 blinds blind).
Proof.
  intros H. unfold addBlind. cbv zeta.
  match goal with |- context [MATCH_MAC_ADDRESS ?m] => destruct (MATCH_MAC_ADDRESS m) eqn:E end;
    [| exact H].
  apply Forall_app. split; [exact H |].
  constructor; [| constructor]. cbn. now apply MATCH_MAC_ADDRESS_upper.
Qed.

(** Every blind taken from the configuration file has a well-formed MAC
    address, in upper case; its topic segment, with underscores turned back
    into colons, is the address again. *)
Theorem loaded_blinds_valid entries b :
  In b (loadBlinds base64 entries) ->
  MATCH_MAC_ADDRESS (BlindMqtt.mac b) = true
  /\ Text.toUpperCase (BlindMqtt.mac b) = BlindMqtt.mac b
  /\ Text.replaceAll "_" ":" (BlindMqtt.sanitizeMacAddress (BlindMqtt.mac b))
     = BlindMqtt.mac b.
Proof.
  intros Hin.
  assert (Hall : forall es acc,
             Forall (fun b => MATCH_MAC_ADDRESS (BlindMqtt.mac b) = true
                              /\ Text.toUpperCase (BlindMqtt.mac b) = BlindMqtt.mac b) acc ->
             Forall (fun b => MATCH_MAC_ADDRESS (BlindMqtt.mac b) = true
                              /\ Text.toUpperCase (BlindMqtt.mac b) = BlindMqtt.mac b)
                    (fold_left (addBlind base64) es acc)).
  { induction es as [| e es IH]; intros acc Hacc; [exact Hacc |].
    cbn [fold_left]. apply IH. now apply addBlind_valid. }
  specialize (Hall entries [] (List.Forall_nil _)).
  rewrite List.Forall_forall in Hall.
  destruct (Hall b Hin) as [Hm Hu].
  split; [exact Hm |]. split; [exact Hu |].
  rewrite sanitizeMacAddress_replaceAll. apply replaceAll_inverse.
  now apply MATCH_MAC_ADDRESS_no_underscore.
Qed.

End ConfiguredBlinds.

Lemma loaded_blinds_valid_witness :
  BlindMqtt.mac {| BlindMqtt.name := "Kitchen"; BlindMqtt.mac := "AA:BB:CC:DD:EE:FF";
                   BlindMqtt.passkey := "000102030405" |}
  = "AA:BB:CC:DD:EE:FF"
  /\ Text.replaceAll "_" ":" (BlindMqtt.sanitizeMacAddress "AA:BB:CC:DD:EE:FF")
     = "AA:BB:CC:DD:EE:FF".
Proof.
  split; [reflexivity |].
  apply (loaded_blinds_valid (fun _ => [])
           [{| Config.encoded_mac := None; Config.encoded_passkey := None;
               Config.name := "Kitchen"; Config.mac := Some "aa:bb:cc:dd:ee:ff";
               Config.passkey := Some "000102030405" |}]
           {| BlindMqtt.name := "Kitchen"; BlindMqtt.mac := "AA:BB:CC:DD:EE:FF";
              BlindMqtt.passkey := "000102030405" |}).
  left. reflexivity.
Defined.

Section InboundRouting.
Import Config Inbound.

Lemma slice_app (a b : string) : JS.slice (String.length a) (a +:+ b) = b.
Proof.
  induction a as [| x a IH]; [reflexivity |].
  rewrite string_app_cons. exact IH.
Qed.

Lemma endsWith_app (a b : string) : Text.endsWith (a +:+ b) b = true.
Proof.
  unfold Text.endsWith. rewrite string_app_length.
  replace (String.length a + String.length b - String.length b)%nat
    with (String.length a) by lia.
  rewrite slice_app, String.eqb_refl, andb_true_r.
  apply Nat.leb_le. lia.
Qed.

Lemma tilt_topic_ends blindConfig :
  Text.endsWith (Topics.getBlindTiltCommandTopic blindConfig) "tilt/set" = true.
Proof.
  unfold Topics.getBlindTiltCommandTopic.
  change "/tilt/set" with ("/" +:+ "tilt/set").
  rewrite <- !string_app_assoc. apply endsWith_app.
Qed.

Lemma command_topic_ends blindConfig :
  Text.endsWith (Topics.getBlindCommandTopic blindConfig) "set" = true.
Proof.
  unfold Topics.getBlindCommandTopic.
  change "/set" with ("/" +:+ "set").
  rewrite <- !string_app_assoc. apply endsWith_app.
Qed.

(** The command topic of a well-formed MAC address does not end in
    "tilt/set": the address has a colon, hence the topic an underscore,
    where "tilt" would have its "i". *)
Lemma command_topic_not_tilt blindConfig :
  MATCH_MAC_ADDRESS (BlindMqtt.mac blindConfig) = true ->
  Text.endsWith (Topics.getBlindCommandTopic blindConfig) "tilt/set" = false.
Proof.
  intros H.
  apply MATCH_MAC_ADDRESS_shape in H
    as (a1 & a2 & b1 & b2 & c1 & c2 & d1 & d2 & e1 & e2 & f1 & f2 & Hmac & Hall).
  unfold Topics.getBlindCommandTopic. rewrite Hmac.
  repeat match goal with
         | H : Forall _ (_ :: _) |- _ => apply Forall_cons_1 in H as [? H]
         end.
  cbn [BlindMqtt.sanitizeMacAddress].
  repeat match goal with
         | H : isHexDigit ?c = true |- _ => rewrite (hex_not_colon c H); clear H
         end.
  cbv - [Ascii.eqb].
  destruct (Ascii.eqb e2 "t"); reflexivity.
Qed.

Lemma lookup_by_topic_segment (devices : gmap string Blind.state) blindConfig :
  MATCH_MAC_ADDRESS (BlindMqtt.mac blindConfig) = true ->
  devices !! Text.replaceAll "_" ":" (BlindMqtt.sanitizeMacAddress (BlindMqtt.mac blindConfig))
  = devices !! BlindMqtt.mac blindConfig.
Proof.
  intros H. rewrite sanitizeMacAddress_replaceAll, replaceAll_inverse; [reflexivity |].
  now apply MATCH_MAC_ADDRESS_no_underscore.
Qed.

(** A message on the command topic of a registered blind with a
    well-formed MAC address takes the command branch: "OPEN" asks for the
    angle 100, "CLOSE" for the angle 0, any other text does nothing; the
    JSON value of the payload plays no part. *)
Theorem command_topic_routing (devices : gmap string Blind.state) blindConfig blind txt j :
  MATCH_MAC_ADDRESS (BlindMqtt.mac blindConfig) = true ->
  devices !! BlindMqtt.mac blindConfig = Some blind ->
  _onBlindMqttMessageReceived devices
    {| topic := Topics.getBlindCommandTopic blindConfig; text := txt; json := j |}
    (BlindMqtt.sanitizeMacAddress (BlindMqtt.mac blindConfig))
  = if String.eqb txt "OPEN" then Blind.setAngle blind 100
    else if String.eqb txt "CLOSE" then Blind.setAngle blind 0
    else [].
Proof.
  intros Hmac Hdev. unfold _onBlindMqttMessageReceived.
  rewrite lookup_by_topic_segment by exact Hmac. rewrite Hdev.
  cbn [topic text json].
  rewrite command_topic_not_tilt by exact Hmac.
  rewrite command_topic_ends. reflexivity.
Qed.

Lemma command_topic_routing_witness :
  _onBlindMqttMessageReceived
    {["AA:BB:CC:DD:EE:FF" :=
        fst (Blind.onParentConnect (Blind.new "000102030405" 5)
                                   [Blind.ANGLE_CHARACTERISTIC_UUID])]}
    {| topic := "bt2mqtt/cover/AA_BB_CC_DD_EE_FF/set"; text := "OPEN"; json := 0 |}
    "AA_BB_CC_DD_EE_FF"
  = [Blind.ExecuteCommand
       {| Command.command := Command.WriteValueWithResponse Command.AngleSlot [x64];
          Command.name := "setAngle"; Command.maxRetries := 5 |}].
Proof.
  exact (command_topic_routing
           {["AA:BB:CC:DD:EE:FF" :=
               fst (Blind.onParentConnect (Blind.new "000102030405" 5)
                                          [Blind.ANGLE_CHARACTERISTIC_UUID])]}
           {| BlindMqtt.name := "Kitchen"; BlindMqtt.mac := "AA:BB:CC:DD:EE:FF";
              BlindMqtt.passkey := "000102030405" |}
           _ "OPEN" 0 eq_refl eq_refl).
Defined.

(** A message on the tilt topic of a registered blind with a well-formed
    MAC address hands the number of its payload to [setAngle], whatever its
    text. *)
Theorem tilt_topic_routing (devices : gmap string Blind.state) blindConfig blind txt v :
  MATCH_MAC_ADDRESS (BlindMqtt.mac blindConfig) = true ->
  devices !! BlindMqtt.mac blindConfig = Some blind ->
  _onBlindMqttMessageReceived devices
    {| topic := Topics.getBlindTiltCommandTopic blindConfig; text := txt; json := v |}
    (BlindMqtt.sanitizeMacAddress (BlindMqtt.mac blindConfig))
  = Blind.setAngle blind v.
Proof.
  intros Hmac Hdev. unfold _onBlindMqttMessageReceived.
  rewrite lookup_by_topic_segment by exact Hmac. rewrite Hdev.
  cbn [topic text json]. now rewrite tilt_topic_ends.
Qed.

Lemma tilt_topic_routing_witness :
  _onBlindMqttMessageReceived
    {["AA:BB:CC:DD:EE:FF" :=
        fst (Blind.onParentConnect (Blind.new "000102030405" 5)
                                   [Blind.ANGLE_CHARACTERISTIC_UUID])]}
    {| topic := "bt2mqtt/cover/AA_BB_CC_DD_EE_FF/tilt/set"; text := "201"; json := 201 |}
    "AA_BB_CC_DD_EE_FF"
  = [Blind.Throw (Blind.InvalidAngleValue 201)].
Proof.
  exact (tilt_topic_routing
           {["AA:BB:CC:DD:EE:FF" :=
               fst (Blind.onParentConnect (Blind.new "000102030405" 5)
                                          [Blind.ANGLE_CHARACTERISTIC_UUID])]}
           {| BlindMqtt.name := "Kitchen"; BlindMqtt.mac := "AA:BB:CC:DD:EE:FF";
              BlindMqtt.passkey := "000102030405" |}
           _ "201" 201 eq_refl eq_refl).
Defined.

End InboundRouting.

(** ** Rounds of the pump *)

Section PumpRounds.
Import Command DeviceManager Rounds.

Lemma succeed_next s item c rest :
  busy_with s item (c :: rest) -> busy_with (succeed s) (bump c) rest.
Proof.
  intros (Hd & He & Ha & Hq & Hi). unfold succeed, settle. rewrite Ha. cbn [lookup list_lookup].
  unfold runImmediate. cbn [immediates set_immediates set_isExecuting set_awaiting].
  rewrite Hi.
  erewrite dequeue_enters; [| exact Hd | reflexivity | exact Hq].
  unfold busy_with. cbn. rewrite Hd. auto.
Qed.

Lemma succeed_last s item : busy_with s item [] -> idle (succeed s).
Proof.
  intros (Hd & He & Ha & Hq & Hi). unfold succeed, settle. rewrite Ha. cbn [lookup list_lookup].
  unfold runImmediate. cbn [immediates set_immediates set_isExecuting set_awaiting].
  rewrite Hi. unfold dequeue. cbn. rewrite Hd, Hq. cbn. unfold idle. cbn. auto.
Qed.

(** First in, first out under success: while every command succeeds, the
    command at position [k] of the queue is the one in flight after [k+1]
    rounds, with the commands behind it still waiting in order; once the
    queue is used up the pump is at rest. *)
Theorem pump_fifo q : forall s item,
  busy_with s item q ->
  (forall k c, q !! k = Some c ->
     busy_with (Nat.iter (S k) succeed s) (bump c) (drop (S k) q))
  /\ idle (Nat.iter (S (length q)) succeed s).
Proof.
  induction q as [| c0 q IH]; intros s item Hs; split.
  - intros k c Hk. discriminate.
  - cbn [length Nat.iter]. now apply succeed_last with item.
  - intros k c Hk. rewrite Nat.iter_succ_r.
    apply succeed_next in Hs. destruct k as [| k].
    + cbn in Hk. injection Hk as <-. exact Hs.
    + cbn in Hk. apply (proj1 (IH _ _ Hs)). exact Hk.
  - rewrite Nat.iter_succ_r. apply succeed_next in Hs.
    apply (proj2 (IH _ _ Hs)).
Qed.

Lemma pump_fifo_witness :
  let c1 := {| command := WriteValueWithResponse AngleSlot [x64];
               name := "setAngle"; maxRetries := 5 |} in
  let c2 := {| command := ReadValue PasskeySlot 0;
               name := "getPasskey"; maxRetries := 5 |} in
  let s := run (new 10 None) [ExecuteCommand c1; ExecuteCommand c2] in
  busy_with (Nat.iter 1 succeed s) {| base := c2; retryCount := 1 |} []
  /\ idle (Nat.iter 2 succeed s).
Proof.
  cbv zeta.
  pose (c1 := {| command := WriteValueWithResponse AngleSlot [x64];
                 name := "setAngle"; maxRetries := 5 |}).
  pose (c2 := {| command := ReadValue PasskeySlot 0;
                 name := "getPasskey"; maxRetries := 5 |}).
  destruct (pump_fifo [{| base := c2; retryCount := 0 |}]
              (run (new 10 None) [ExecuteCommand c1; ExecuteCommand c2])
              {| base := c1; retryCount := 1 |}) as [Hk Hidle].
  - repeat split; reflexivity.
  - split; [| exact Hidle].
    exact (Hk 0%nat {| base := c2; retryCount := 0 |} eq_refl).
Defined.

Lemma fail_retry message s item rest :
  busy_with s item rest ->
  JS.includes message "Not connected" = false ->
  retryCount item < maxRetries (base item) ->
  busy_with (fail message s) (bump item) rest.
Proof.
  intros (Hd & He & Ha & Hq & Hi) Hmsg Hlt. unfold fail, settle.
  rewrite Ha. cbn [lookup list_lookup]. rewrite Hmsg. cbn [negb].
  destruct (Z.ltb_spec (retryCount item) (maxRetries (base item))) as [_ | Hge]; [| lia].
  unfold runImmediate.
  cbn [immediates set_immediates set_isExecuting set_awaiting set_queue].
  rewrite Hi.
  erewrite dequeue_enters; [| exact Hd | reflexivity | reflexivity].
  unfold busy_with. cbn. rewrite Hd, Hq. auto.
Qed.

(** A failure after which the command is not retried leaves the manager
    as a success would. *)
Lemma fail_drop message s item rest :
  busy_with s item rest ->
  JS.includes message "Not connected" = true
  \/ maxRetries (base item) <= retryCount item ->
  fail message s = succeed s.
Proof.
  intros (Hd & He & Ha & Hq & Hi) Hdrop. unfold fail, succeed, settle.
  rewrite Ha. cbn [lookup list_lookup].
  destruct (JS.includes message "Not connected"); cbn [negb]; [reflexivity |].
  destruct Hdrop as [Hc | Hge]; [discriminate |].
  destruct (Z.ltb_spec (retryCount item) (maxRetries (base item))) as [Hlt | _]; [lia |].
  reflexivity.
Qed.

(** How often a command that keeps failing is invoked.  A command whose
    first invocation is under way, and which fails each time with a message
    other than "Not connected", is invoked [max 1 maxRetries] times in all:
    after [n] failures, for [n] below that number, it is in flight again with
    retry count [n + 1] and the rest of the queue has not moved; its last
    failure is handled as a success would be, and the command is gone. *)
Theorem failing_command_attempts message s c rest :
  busy_with s {| base := c; retryCount := 1 |} rest ->
  JS.includes message "Not connected" = false ->
  let total := Z.to_nat (Z.max 1 (maxRetries c)) in
  (forall n, (n < total)%nat ->
     busy_with (Nat.iter n (fail message) s)
               {| base := c; retryCount := 1 + Z.of_nat n |} rest)
  /\ Nat.iter total (fail message) s
     = succeed (Nat.iter (total - 1) (fail message) s).
Proof.
  intros Hs Hmsg total.
  assert (Hn : forall n, (n < total)%nat ->
             busy_with (Nat.iter n (fail message) s)
                       {| base := c; retryCount := 1 + Z.of_nat n |} rest).
  { induction n as [| n IH]; intros Hlt.
    - exact Hs.
    - cbn [Nat.iter].
      replace (1 + Z.of_nat (S n)) with (1 + Z.of_nat n + 1) by lia.
      apply (fail_retry message _ {| base := c; retryCount := 1 + Z.of_nat n |} rest).
      + apply IH. lia.
      + exact Hmsg.
      + cbn [retryCount base]. unfold total in Hlt. lia. }
  split; [exact Hn |].
  assert (Hpos : (0 < total)%nat) by (unfold total; lia).
  set (t := (total - 1)%nat).
  assert (Ht : total = S t) by (unfold t; lia).
  rewrite Ht. cbn [Nat.iter].
  apply (fail_drop message _ {| base := c; retryCount := 1 + Z.of_nat t |} rest).
  - apply Hn. lia.
  - right. cbn [retryCount base]. unfold t, total. lia.
Qed.

Lemma failing_command_attempts_witness :
  let c := {| command := WriteValueWithResponse AngleSlot [x64];
              name := "setAngle"; maxRetries := 2 |} in
  let s := run (new 10 None) [ExecuteCommand c] in
  busy_with (Nat.iter 1 (fail "Device busy") s)
            {| base := c; retryCount := 1 + Z.of_nat 1 |} [].
Proof.
  cbv zeta.
  refine (proj1 (failing_command_attempts "Device busy"
                   (run (new 10 None)
                        [ExecuteCommand {| command := WriteValueWithResponse AngleSlot [x64];
                                           name := "setAngle"; maxRetries := 2 |}])
                   {| command := WriteValueWithResponse AngleSlot [x64];
                      name := "setAngle"; maxRetries := 2 |} [] _ _) 1%nat _).
  - repeat split; reflexivity.
  - reflexivity.
  - vm_compute. lia.
Defined.

Lemma In_delete {A} (x : A) k (l : list A) : In x (delete k l) -> In x l.
Proof.
  revert k. induction l as [| y l IH]; intros k H; [destruct k; exact H |].
  destruct k as [| k]; cbn in H.
  - now right.
  - destruct H as [H | H]; [now left | right; eauto].
Qed.

Lemma dequeue_policy s :
  maxConnectRetries (dequeue s) = maxConnectRetries s
  /\ _connectRetryCounts (dequeue s) = _connectRetryCounts s
  /\ isDisposed (dequeue s) = isDisposed s.
Proof.
  destruct (dequeue_cases s) as [-> | (c & rest & _ & _ & _ & ->)]; cbn; auto.
Qed.

Lemma settle_policy s k r :
  maxConnectRetries (settle s k r) = maxConnectRetries s
  /\ _connectRetryCounts (settle s k r) = _connectRetryCounts s
  /\ isDisposed (settle s k r) = isDisposed s.
Proof.
  unfold settle. destruct (awaiting s !! k); [| auto].
  destruct r as [| [message |]]; cbv zeta; [cbn; auto | | cbn; auto].
  destruct (negb (JS.includes message "Not connected"));
    [destruct (retryCount i <? maxRetries (base i)) |]; cbn; auto.
Qed.

Lemma executeCommand_policy s c :
  maxConnectRetries (executeCommand s c) = maxConnectRetries s
  /\ _connectRetryCounts (executeCommand s c) = _connectRetryCounts s
  /\ isDisposed (executeCommand s c) = isDisposed s.
Proof.
  unfold executeCommand.
  destruct (dequeue_policy
              (set_queue s (bluetoothCommandQueue s ++ [{| base := c; retryCount := 0 |}])))
    as (-> & -> & ->).
  cbn. auto.
Qed.

Lemma runImmediate_policy s :
  maxConnectRetries (runImmediate s) = maxConnectRetries s
  /\ _connectRetryCounts (runImmediate s) = _connectRetryCounts s
  /\ isDisposed (runImmediate s) = isDisposed s.
Proof.
  unfold runImmediate. destruct (immediates s) as [| n]; [auto |].
  destruct (dequeue_policy (set_immediates s n)) as (-> & -> & ->). cbn. auto.
Qed.

End PumpRounds.

(** ** After dispose; bounds of the reconnect policy *)

Section ManagerLifetime.
Import Command DeviceManager.

Lemma reconnectDevice_disposed s a :
  isDisposed (reconnectDevice s a) = isDisposed s.
Proof.
  unfold reconnectDevice. destruct (shouldReconnect s a); [| reflexivity].
  cbv zeta. split_if.
  - now rewrite (proj2 (proj2 (executeCommand_policy _ _))).
  - reflexivity.
Qed.

Lemma step_disposed s i : isDisposed s = true -> isDisposed (step s i) = true.
Proof.
  intros H. destruct i as [c | | k r | | a |]; cbn.
  - now rewrite (proj2 (proj2 (executeCommand_policy _ _))).
  - now rewrite (proj2 (proj2 (dequeue_policy _))).
  - now rewrite (proj2 (proj2 (settle_policy _ _ _))).
  - now rewrite (proj2 (proj2 (runImmediate_policy _))).
  - now rewrite reconnectDevice_disposed.
  - reflexivity.
Qed.

Lemma settle_awaiting s k r c : In c (awaiting (settle s k r)) -> In c (awaiting s).
Proof.
  unfold settle. destruct (awaiting s !! k) as [q |]; [| auto].
  destruct r as [| [message |]]; cbv zeta.
  - cbn. apply In_delete.
  - destruct (negb (JS.includes message "Not connected"));
      [destruct (retryCount q <? maxRetries (base q)) |]; cbn; apply In_delete.
  - cbn. apply In_delete.
Qed.

Lemma step_awaiting_disposed s i c :
  isDisposed s = true -> In c (awaiting (step s i)) -> In c (awaiting s).
Proof.
  intros H. destruct i as [c0 | | k r | | a |]; cbn.
  - unfold executeCommand. rewrite dequeue_disposed by exact H. auto.
  - rewrite dequeue_disposed by exact H. auto.
  - apply settle_awaiting.
  - unfold runImmediate. destruct (immediates s); [auto |].
    rewrite dequeue_disposed by exact H. auto.
  - unfold reconnectDevice. destruct (shouldReconnect s a); [| auto].
    cbv zeta. split_if; [| auto].
    unfold executeCommand. rewrite dequeue_disposed by exact H. auto.
  - auto.
Qed.

(** After [dispose] no command is invoked any more: whatever is queued,
    settled or reconnected afterwards, the commands in flight are among those
    that were in flight at the time of the call, and the manager stays
    disposed. *)
Theorem nothing_invoked_after_dispose tr : forall s c,
  In c (awaiting (run (dispose s) tr)) ->
  In c (awaiting s) /\ isDisposed (run (dispose s) tr) = true.
Proof.
  assert (H : forall tr0 s0, isDisposed s0 = true ->
            isDisposed (run s0 tr0) = true
            /\ forall c, In c (awaiting (run s0 tr0)) -> In c (awaiting s0)).
  { induction tr0 as [| i tr0 IH]; intros s0 Hd; [auto |].
    cbn [run fold_left]. destruct (IH (step s0 i) (step_disposed s0 i Hd)) as [Hd' Hin].
    split; [exact Hd' |]. intros c Hc. apply Hin in Hc.
    now apply step_awaiting_disposed in Hc. }
  intros s c Hc. destruct (H tr (dispose s) eq_refl) as [Hd Hin].
  split; [| exact Hd]. apply Hin in Hc. exact Hc.
Qed.

Lemma nothing_invoked_after_dispose_witness :
  let c := {| command := WriteValueWithResponse AngleSlot [x64];
              name := "setAngle"; maxRetries := 5 |} in
  let s := run (new 10 None) [ExecuteCommand c] in
  In {| base := c; retryCount := 1 |} (awaiting s)
  /\ isDisposed (run (dispose s) [ExecuteCommand c; Immediate; Dequeue]) = true.
Proof.
  cbv zeta.
  apply (nothing_invoked_after_dispose
           [ExecuteCommand {| command := WriteValueWithResponse AngleSlot [x64];
                              name := "setAngle"; maxRetries := 5 |}; Immediate; Dequeue]).
  left. reflexivity.
Defined.

Lemma reconnectDevice_policy s a :
  maxConnectRetries (reconnectDevice s a) = maxConnectRetries s
  /\ forall a', a' <> a ->
       _connectRetryCounts (reconnectDevice s a) !! a' = _connectRetryCounts s !! a'.
Proof.
  unfold reconnectDevice. destruct (shouldReconnect s a); [| auto].
  cbv zeta. split_if.
  - destruct (executeCommand_policy
                (set_connectRetryCounts s
                   (<[a := or_zero (_connectRetryCounts s !! a) + 1]> (_connectRetryCounts s)))
                (reconnectCommand a)) as (-> & -> & _).
    cbn. split; [reflexivity |]. intros a' Hne. now apply lookup_insert_ne.
  - cbn. split; [reflexivity |]. intros a' Hne. now apply lookup_insert_ne.
Qed.

Lemma step_policy s i :
  maxConnectRetries (step s i) = maxConnectRetries s
  /\ forall a, (forall a0, i = ReconnectDevice a0 -> a0 <> a) ->
       _connectRetryCounts (step s i) !! a = _connectRetryCounts s !! a.
Proof.
  destruct i as [c | | k r | | a0 |]; cbn.
  - destruct (executeCommand_policy s c) as (-> & -> & _). auto.
  - destruct (dequeue_policy s) as (-> & -> & _). auto.
  - destruct (settle_policy s k r) as (-> & -> & _). auto.
  - destruct (runImmediate_policy s) as (-> & -> & _). auto.
  - destruct (reconnectDevice_policy s a0) as [-> H]. split; [reflexivity |].
    intros a Ha. apply H. specialize (Ha a0 eq_refl). congruence.
  - auto.
Qed.

(** Once [reconnectDevice] has declined an address it declines it for
    good: nothing resets or lowers the counter of that address, so no later
    call for it goes ahead. *)
Theorem reconnect_given_up_for_good tr : forall s address,
  shouldReconnect s address = false ->
  shouldReconnect (run s tr) address = false
  /\ _connectRetryCounts (run s tr) !! address = _connectRetryCounts s !! address.
Proof.
  induction tr as [| i tr IH]; intros s address H; [auto |].
  change (run s (i :: tr)) with (run (step s i) tr).
  assert (Hstep : maxConnectRetries (step s i) = maxConnectRetries s
                  /\ _connectRetryCounts (step s i) !! address
                     = _connectRetryCounts s !! address).
  { destruct (step_policy s i) as [Hm Hc]. split; [exact Hm |].
    destruct i as [c | | k r | | a0 |]; try solve [apply Hc; intros ? [=]].
    destruct (decide (a0 = address)) as [-> | Hne].
    - cbn [step]. now rewrite reconnectDevice_skips.
    - apply Hc. intros ? [= <-]. exact Hne. }
  destruct Hstep as [Hm Hc].
  assert (H' : shouldReconnect (step s i) address = false).
  { unfold shouldReconnect in *. now rewrite Hm, Hc. }
  destruct (IH (step s i) address H') as [-> ->]. auto.
Qed.

Lemma reconnect_given_up_for_good_witness :
  let address := "AA:BB:CC:DD:EE:FF" in
  let s := run (new 1 (Some [address])) [ReconnectDevice address; ReconnectDevice address] in
  _connectRetryCounts
    (run s [Settle 0 Resolved; Immediate; ReconnectDevice address]) !! address
  = _connectRetryCounts s !! address.
Proof.
  cbv zeta.
  apply (reconnect_given_up_for_good
           [Settle 0 Resolved; Immediate; ReconnectDevice "AA:BB:CC:DD:EE:FF"]).
  vm_compute. reflexivity.
Defined.



End ManagerLifetime.

(** ** Invariants of the unlock state and of the stored angle *)

Section BlindInvariants.
Import Command Blind.

Lemma unlock_shape st :
  (_unlockAttempts st < _maxUnlockRetries st
   /\ unlock st
      = (set_isUnlocked (set_unlockAttempts st (_unlockAttempts st + 1)) false,
         setPasskey (set_isUnlocked (set_unlockAttempts st (_unlockAttempts st + 1)) false)))
  \/ (_maxUnlockRetries st <= _unlockAttempts st
      /\ unlock st = (_clearUnlockTimer st, [Emit_unlock_failed])).
Proof.
  unfold unlock.
  destruct (Z.ltb_spec (_unlockAttempts st) (_maxUnlockRetries st)); [left | right]; auto.
Qed.

Lemma clearUnlockTimer_rest st :
  _maxUnlockRetries (_clearUnlockTimer st) = _maxUnlockRetries st
  /\ angle (_clearUnlockTimer st) = angle st.
Proof. unfold _clearUnlockTimer. destruct (_unlockTimer st); cbn; auto. Qed.

(** What a step keeps: the retry cap; the attempt counter within the cap;
    no timer while unlocked; the stored angle -1 or within range. *)
Lemma step_keeps st i :
  (0 <= _unlockAttempts st <= Z.max 0 (_maxUnlockRetries st)) ->
  (isUnlocked st = true -> _unlockTimer st = false) ->
  (angle st = -1 \/ 0 <= angle st <= 200) ->
  _maxUnlockRetries (fst (step st i)) = _maxUnlockRetries st
  /\ (0 <= _unlockAttempts (fst (step st i)) <= Z.max 0 (_maxUnlockRetries st))
  /\ (isUnlocked (fst (step st i)) = true -> _unlockTimer (fst (step st i)) = false)
  /\ (angle (fst (step st i)) = -1 \/ 0 <= angle (fst (step st i)) <= 200).
Proof.
  intros Ha Ht Hg.
  assert (Hunlock : forall st0,
             (0 <= _unlockAttempts st0 <= Z.max 0 (_maxUnlockRetries st0)) ->
             _maxUnlockRetries (fst (unlock st0)) = _maxUnlockRetries st0
             /\ (0 <= _unlockAttempts (fst (unlock st0)) <= Z.max 0 (_maxUnlockRetries st0))
             /\ (isUnlocked (fst (unlock st0)) = true -> _unlockTimer (fst (unlock st0)) = false)
             /\ angle (fst (unlock st0)) = angle st0).
  { intros st0 H0. destruct (unlock_shape st0) as [[Hlt ->] | [Hge ->]]; cbn [fst].
    - cbn. repeat split; try lia; intros; try discriminate; auto.
    - destruct (clearUnlockTimer_fields st0) as (_ & _ & -> & _ & ->).
      destruct (clearUnlockTimer_rest st0) as (-> & ->). auto. }
  destruct i as [cs | b | b | v | | |]; cbn [step].
  - unfold onParentConnect.
    set (bound := fold_left bindCharacteristic cs (set_isUnlocked st false)).
    destruct (bind_rest cs (set_isUnlocked st false)) as (_ & Hb1 & Hb2 & _ & Hb3).
    fold bound in Hb1, Hb2, Hb3. cbn in Hb1, Hb2, Hb3.
    destruct (Hunlock bound) as (-> & H2 & H3 & ->); [rewrite Hb1, Hb2; exact Ha |].
    rewrite Hb2 in *. rewrite Hb3. auto.
  - unfold onAngleChanged. destruct (Buffer.readUInt8 b 0) as [a |]; cbn [fst]; [| auto].
    destruct (isValidAngle a) eqn:Hv; cbn [negb fst].
    + destruct (a =? angle st); cbn; [auto |].
      apply isValidAngle_iff in Hv. auto.
    + cbn. auto.
  - unfold onPasskeyChanged. cbv zeta.
    destruct (bool_decide (Some (Buffer.toString_hex b) = passkey st)); cbn [negb fst]; [auto |].
    split_if; cbn [fst].
    + match goal with |- context [_clearUnlockTimer ?x] =>
        destruct (clearUnlockTimer_fields x) as (_ & _ & -> & _ & ->);
        destruct (clearUnlockTimer_rest x) as (-> & ->) end.
      cbn. repeat split; try lia; intros; try discriminate; auto.
    + cbn. repeat split; try lia; intros; try discriminate; auto.
  - cbn. auto.
  - destruct (_unlockTimer st) eqn:E; cbn [fst]; [| auto].
    destruct (Hunlock st Ha) as (-> & H2 & H3 & ->). auto.
  - unfold _startUnlockTimerIfLocked. split_if; cbn; [| auto].
    repeat split; try lia; auto. intros Hu.
    rewrite Hu in *. discriminate.
  - unfold _disconnect. cbn.
    destruct (clearUnlockTimer_fields st) as (_ & _ & _ & _ & ->).
    destruct (clearUnlockTimer_rest st) as (-> & ->).
    repeat split; try lia; auto.
Qed.

Lemma run_keeps tr : forall st,
  (0 <= _unlockAttempts st <= Z.max 0 (_maxUnlockRetries st)) ->
  (isUnlocked st = true -> _unlockTimer st = false) ->
  (angle st = -1 \/ 0 <= angle st <= 200) ->
  _maxUnlockRetries (fst (run st tr)) = _maxUnlockRetries st
  /\ (0 <= _unlockAttempts (fst (run st tr)) <= Z.max 0 (_maxUnlockRetries st))
  /\ (isUnlocked (fst (run st tr)) = true -> _unlockTimer (fst (run st tr)) = false)
  /\ (angle (fst (run st tr)) = -1 \/ 0 <= angle (fst (run st tr)) <= 200).
Proof.
  induction tr as [| i tr IH]; intros st Ha Ht Hg; [auto |].
  rewrite run_cons.
  destruct (step_keeps st i Ha Ht Hg) as (Hm & Ha' & Ht' & Hg').
  rewrite <- Hm in Ha'.
  destruct (IH _ Ha' Ht' Hg') as (-> & H1 & H2 & H3).
  rewrite Hm in *. auto.
Qed.

(** In every state a blind reaches, the number of unlock attempts lies
    between 0 and the configured number of unlock retries (0 when that number
    is negative). *)
Theorem unlock_attempts_bounded configured maxUnlockRetries tr :
  0 <= _unlockAttempts (fst (run (new configured maxUnlockRetries) tr))
    <= Z.max 0 maxUnlockRetries.
Proof.
  destruct (run_keeps tr (new configured maxUnlockRetries)) as (_ & H & _).
  - cbn. lia.
  - discriminate.
  - now left.
  - exact H.
Qed.

(** In every state a blind reaches, the retry timer is not armed while
    the blind is unlocked. *)
Theorem unlocked_blind_has_no_timer configured maxUnlockRetries tr :
  isUnlocked (fst (run (new configured maxUnlockRetries) tr)) = true ->
  _unlockTimer (fst (run (new configured maxUnlockRetries) tr)) = false.
Proof.
  destruct (run_keeps tr (new configured maxUnlockRetries)) as (_ & _ & H & _).
  - cbn. lia.
  - discriminate.
  - now left.
  - exact H.
Qed.

Lemma unlocked_blind_has_no_timer_witness :
  _unlockTimer
    (fst (run (new "000102030405" 5)
              [ParentConnect [PASSKEY_CHARACTERISTIC_UUID]; UnlockSettled;
               PasskeyNotification [x00; x01; x02; x03; x04; x05; x00]]))
  = false.
Proof.
  apply unlocked_blind_has_no_timer. vm_compute. reflexivity.
Defined.

(** In every state a blind reaches, the stored angle is -1 or lies within
    [0, 200]. *)
Theorem stored_angle_range configured maxUnlockRetries tr :
  angle (fst (run (new configured maxUnlockRetries) tr)) = -1
  \/ 0 <= angle (fst (run (new configured maxUnlockRetries) tr)) <= 200.
Proof.
  destruct (run_keeps tr (new configured maxUnlockRetries)) as (_ & _ & _ & H).
  - cbn. lia.
  - discriminate.
  - now left.
  - exact H.
Qed.

(** After a notification with an out-of-range byte, the next in-range
    notification is always reported, even when it carries the angle stored
    before. *)
Theorem angle_reported_after_glitch st b1 b2 a1 a2 :
  Buffer.readUInt8 b1 0 = Some a1 -> 200 < a1 ->
  Buffer.readUInt8 b2 0 = Some a2 -> 0 <= a2 <= 200 ->
  snd (onAngleChanged (fst (onAngleChanged st b1)) b2) = [Emit_angle_changed a2]
  /\ angle (fst (onAngleChanged (fst (onAngleChanged st b1)) b2)) = a2.
Proof.
  intros H1 Hbig H2 Hok.
  assert (Hfirst : onAngleChanged st b1 = (set_angle st (-1), [])).
  { unfold onAngleChanged. rewrite H1.
    destruct (isValidAngle a1) eqn:Hv; [apply isValidAngle_iff in Hv; lia | reflexivity]. }
  rewrite Hfirst. cbn [fst].
  unfold onAngleChanged. rewrite H2.
  rewrite (proj2 (isValidAngle_iff a2) Hok). cbn [negb set_angle angle].
  destruct (Z.eqb_spec a2 (-1)); [lia |]. cbn. auto.
Qed.

Lemma angle_reported_after_glitch_witness :
  snd (onAngleChanged (fst (onAngleChanged (set_angle (new "000102030405" 5) 100) [xff]))
                      [x64])
  = [Emit_angle_changed 100].
Proof.
  apply (angle_reported_after_glitch (set_angle (new "000102030405" 5) 100)
           [xff] [x64] 255 100); try reflexivity; lia.
Defined.

End BlindInvariants.

Section UnlockGivesUp.
Import Command Blind.

Lemma run_cons_effects st i tr :
  snd (run st (i :: tr)) = snd (step st i) ++ snd (run (fst (step st i)) tr).
Proof.
  cbn. destruct (step st i) as [st1 e1]. cbn.
  destruct (run st1 tr) as [st2 e2]. reflexivity.
Qed.

Lemma ticks_give_up k : forall st,
  _unlockTimer st = true ->
  Z.to_nat (_maxUnlockRetries st - _unlockAttempts st) = k ->
  _unlockTimer (fst (run st (repeat UnlockTimerTick (S k)))) = false
  /\ In Emit_unlock_failed (snd (run st (repeat UnlockTimerTick (S k)))).
Proof.
  induction k as [| k IH]; intros st Ht Hk.
  - cbn [repeat]. rewrite run_cons, run_cons_effects. cbn [step run fst snd]. rewrite Ht.
    destruct (unlock_shape st) as [[Hlt _] | [_ ->]]; [lia |].
    cbn [fst snd]. split.
    + apply clearUnlockTimer_fields.
    + left. reflexivity.
  - change (repeat UnlockTimerTick (S (S k)))
      with (UnlockTimerTick :: repeat UnlockTimerTick (S k)).
    rewrite run_cons, run_cons_effects. cbn [step]. rewrite Ht.
    destruct (unlock_shape st) as [[Hlt ->] | [Hge _]]; [| lia].
    cbn [fst snd].
    destruct (IH (set_isUnlocked (set_unlockAttempts st (_unlockAttempts st + 1)) false))
      as [H1 H2].
    + exact Ht.
    + cbn. lia.
    + split; [exact H1 |]. apply in_or_app. now right.
Qed.

(** A blind whose retry timer is armed and which receives no passkey
    echo gives up: after one tick more than the attempts it has left, the
    timer is stopped and "unlock-failed" has been emitted. *)
Theorem unlock_gives_up st :
  _unlockTimer st = true ->
  let ticks := repeat UnlockTimerTick
                      (S (Z.to_nat (_maxUnlockRetries st - _unlockAttempts st))) in
  _unlockTimer (fst (run st ticks)) = false
  /\ In Emit_unlock_failed (snd (run st ticks)).
Proof.
  intros Ht. cbv zeta. now apply ticks_give_up.
Qed.

Lemma unlock_gives_up_witness :
  let st := fst (run (new "000102030405" 2)
                     [ParentConnect [PASSKEY_CHARACTERISTIC_UUID]; UnlockSettled]) in
  In Emit_unlock_failed (snd (run st (repeat UnlockTimerTick 2))).
Proof.
  cbv zeta.
  apply (unlock_gives_up
           (fst (run (new "000102030405" 2)
                     [ParentConnect [PASSKEY_CHARACTERISTIC_UUID]; UnlockSettled]))).
  vm_compute. reflexivity.
Defined.

End UnlockGivesUp.

(** ** Short buffers; repeated sensor and status notifications *)

Section TelemetryProperties.
Import Blind Telemetry.

Lemma get_None_iff (buf : Buffer.t) i : Buffer.get buf i = None <-> (length buf <= i)%nat.
Proof.
  unfold Buffer.get. split.
  - intros H. destruct (nth_error buf i) eqn:E; [discriminate |].
    now apply nth_error_None in E.
  - intros H. apply nth_error_None in H. now rewrite H.
Qed.

Lemma readUInt16LE_None_iff (buf : Buffer.t) i :
  Buffer.readUInt16LE buf i = None <-> (length buf <= S i)%nat.
Proof.
  unfold Buffer.readUInt16LE. replace (i + 1)%nat with (S i) by lia.
  destruct (Buffer.get buf i) eqn:E1; destruct (Buffer.get buf (S i)) eqn:E2.
  - split; [discriminate |]. intros H. apply get_None_iff in H. congruence.
  - apply get_None_iff in E2. tauto.
  - apply get_None_iff in E1. split; [lia | reflexivity].
  - apply get_None_iff in E2. tauto.
Qed.

Lemma parseBlindSensors_long (buffer : Buffer.t) :
  (14 <= length buffer)%nat -> parseBlindSensors buffer <> None.
Proof.
  intros H. unfold parseBlindSensors, Buffer.readUInt8.
  rewrite get_in_range by lia. rewrite !readUInt16LE_in_range by lia. discriminate.
Qed.

Lemma parseBlindSensors_short (buffer : Buffer.t) :
  (length buffer < 14)%nat -> parseBlindSensors buffer = None.
Proof.
  intros H.
  assert (H12 : Buffer.readUInt16LE buffer 12 = None) by (apply readUInt16LE_None_iff; lia).
  unfold parseBlindSensors.
  destruct (Buffer.readUInt8 buffer 0); [| reflexivity]. cbn [mbind option_bind].
  destruct (Buffer.readUInt16LE buffer 2); [| reflexivity]. cbn [mbind option_bind].
  destruct (Buffer.readUInt16LE buffer 4); [| reflexivity]. cbn [mbind option_bind].
  destruct (Buffer.readUInt16LE buffer 6); [| reflexivity]. cbn [mbind option_bind].
  destruct (Buffer.readUInt16LE buffer 8); [| reflexivity]. cbn [mbind option_bind].
  destruct (Buffer.readUInt16LE buffer 10); [| reflexivity]. cbn [mbind option_bind].
  rewrite H12. reflexivity.
Qed.

Lemma readUInt32LE_None_iff (buffer : Buffer.t) :
  Buffer.readUInt32LE buffer 0 = None <-> (length buffer < 4)%nat.
Proof.
  unfold Buffer.readUInt32LE. cbn [Nat.add].
  destruct (Buffer.get buffer 0) eqn:E0; destruct (Buffer.get buffer 1) eqn:E1;
    destruct (Buffer.get buffer 2) eqn:E2; destruct (Buffer.get buffer 3) eqn:E3;
    repeat match goal with
           | H : Buffer.get _ _ = None |- _ => apply get_None_iff in H
           | H : Buffer.get _ ?i = Some _ |- _ =>
               assert (i < length buffer)%nat
                 by (destruct (Nat.lt_ge_cases i (length buffer)) as [? | Hge];
                     [assumption | apply get_None_iff in Hge; congruence]);
               clear H
           end;
    split; intros; try discriminate; try reflexivity; lia.
Qed.

(** The decoders raise exactly on short buffers: [parseBlindSensors] on
    fewer than 14 bytes, [parseBlindStatus] on fewer than 4. *)
Theorem decoders_fail_iff_short (buffer : Buffer.t) :
  (parseBlindSensors buffer = None <-> (length buffer < 14)%nat)
  /\ (parseBlindStatus buffer = None <-> (length buffer < 4)%nat).
Proof.
  split.
  - split; [| apply parseBlindSensors_short].
    intros H. destruct (Nat.lt_ge_cases (length buffer) 14) as [Hlt | Hge]; [exact Hlt |].
    now apply parseBlindSensors_long in Hge.
  - rewrite <- readUInt32LE_None_iff. unfold parseBlindStatus.
    destruct (Buffer.readUInt32LE buffer 0); cbn [mbind option_bind]; split;
      intros; try discriminate; reflexivity.
Qed.

(** A sensor notification with the same bytes as the one just handled
    changes nothing and emits nothing. *)
Theorem repeated_sensors_notification st buffer st1 events :
  onSensorsChanged st buffer = Some (st1, events) ->
  onSensorsChanged st1 buffer = Some (st1, []).
Proof.
  unfold onSensorsChanged.
  destruct (parseBlindSensors buffer) as [cs |]; cbn [mbind option_bind]; [| discriminate].
  cbv zeta.
  destruct (String.eqb_spec (rawSensorState st) (Buffer.toString_hex buffer)) as [Heq | Hne];
    cbn [negb].
  - intros [= <- <-]. destruct (String.eqb_spec (rawSensorState st) (Buffer.toString_hex buffer));
      [reflexivity | contradiction].
  - intros [= <- <-]. cbn [rawSensorState]. now rewrite String.eqb_refl.
Qed.

Lemma repeated_sensors_notification_witness :
  let b := [x55; x00; xc4; x0e; x00; x00; x00; x00; xe0; x00; xd4; x00; x32; x00] in
  match onSensorsChanged Telemetry.new b with
  | Some (st1, _) => onSensorsChanged st1 b = Some (st1, [])
  | None => False
  end.
Proof.
  cbv zeta.
  destruct (onSensorsChanged Telemetry.new
              [x55; x00; xc4; x0e; x00; x00; x00; x00; xe0; x00; xd4; x00; x32; x00])
    as [[st1 events] |] eqn:E.
  - exact (repeated_sensors_notification _ _ _ _ E).
  - vm_compute in E. discriminate E.
Defined.

(** A status notification with the same bytes as the one just handled
    changes nothing and emits nothing. *)
Theorem repeated_status_notification st buffer st1 events :
  onStatusChanged st buffer = Some (st1, events) ->
  onStatusChanged st1 buffer = Some (st1, []).
Proof.
  unfold onStatusChanged. cbv zeta.
  destruct (parseBlindStatus buffer) as [cs |]; cbn [mbind option_bind]; [| discriminate].
  destruct (String.eqb_spec (Buffer.toString_hex buffer) (rawStatusState st)) as [Heq | Hne];
    cbn [negb].
  - intros [= <- <-]. destruct (String.eqb_spec (Buffer.toString_hex buffer) (rawStatusState st));
      [reflexivity | contradiction].
  - intros [= <- <-]. cbn [rawStatusState]. now rewrite String.eqb_refl.
Qed.

Lemma repeated_status_notification_witness :
  match onStatusChanged Telemetry.new [x01; x00; x02; x80] with
  | Some (st1, _) => onStatusChanged st1 [x01; x00; x02; x80] = Some (st1, [])
  | None => False
  end.
Proof.
  destruct (onStatusChanged Telemetry.new [x01; x00; x02; x80]) as [[st1 events] |] eqn:E.
  - exact (repeated_status_notification _ _ _ _ E).
  - vm_compute in E. discriminate E.
Defined.

(** What a sensor notification with new bytes stores and reports: the raw
    state and the four integer readings are those of the payload; the first
    event is "sensors-changed"; a battery-level or battery-voltage event is
    emitted exactly when that reading differs from the stored one, and
    carries the new reading. *)
Theorem sensors_notification_stores st buffer cs :
  parseBlindSensors buffer = Some cs ->
  rawSensorState st <> Buffer.toString_hex buffer ->
  exists st1 events,
    onSensorsChanged st buffer
    = Some (st1, sensors_changed (Buffer.toString_hex buffer) :: events)
    /\ rawSensorState st1 = Buffer.toString_hex buffer
    /\ batteryLevel st1 = Blind.batteryPercentage cs
    /\ batteryVoltage st1 = Blind.batteryVoltage cs
    /\ batteryCharge st1 = Blind.batteryCharge cs
    /\ solarPanelVoltage st1 = Blind.solarPanelVoltage cs
    /\ (forall v, In (battery_level_changed v) events
                  <-> v = Blind.batteryPercentage cs /\ v <> batteryLevel st)
    /\ (forall v, In (battery_voltage_changed v) events
                  <-> v = Blind.batteryVoltage cs /\ v <> batteryVoltage st).
Proof.
  intros Hcs Hne. unfold onSensorsChanged. rewrite Hcs. cbn [mbind option_bind]. cbv zeta.
  destruct (String.eqb_spec (rawSensorState st) (Buffer.toString_hex buffer));
    [contradiction |]. cbn [negb].
  eexists _, _. split; [reflexivity |].
  cbn [rawSensorState batteryLevel batteryVoltage batteryCharge solarPanelVoltage].
  unfold neqZ, neqF.
  destruct (Z.eqb_spec (batteryLevel st) (Blind.batteryPercentage cs)) as [E1 | E1];
    destruct (Z.eqb_spec (batteryVoltage st) (Blind.batteryVoltage cs)) as [E2 | E2];
    destruct (Z.eqb_spec (batteryCharge st) (Blind.batteryCharge cs)) as [E3 | E3];
    destruct (Z.eqb_spec (solarPanelVoltage st) (Blind.solarPanelVoltage cs)) as [E4 | E4];
    destruct (PrimFloat.eqb (batteryTemperature st) (Blind.batteryTemperature cs));
    destruct (PrimFloat.eqb (interiorTemperature st) (Blind.interiorTemperature cs));
    destruct (PrimFloat.eqb (illuminance st) (Blind.illuminance cs));
    cbn [negb app];
    repeat split; try assumption; try reflexivity;
    try match goal with
        | H : In _ _ |- _ =>
            cbn [In] in H; repeat destruct H as [H | H];
            try discriminate H; try contradiction;
            try (injection H as <-); congruence
        end;
    try (intros [-> Hv]; try congruence; cbn [In]; tauto).
Qed.

Lemma sensors_notification_stores_witness :
  exists st1 events,
    onSensorsChanged Telemetry.new
      [x55; x00; xc4; x0e; x00; x00; x00; x00; xe0; x00; xd4; x00; x32; x00]
    = Some (st1, sensors_changed "5500c40e00000000e000d4003200" :: events)
    /\ batteryLevel st1 = 85 /\ batteryVoltage st1 = 3780.
Proof.
  destruct (sensors_notification_stores Telemetry.new
              [x55; x00; xc4; x0e; x00; x00; x00; x00; xe0; x00; xd4; x00; x32; x00]
              {| Blind.batteryPercentage := 85; Blind.batteryVoltage := 3780;
                 Blind.batteryCharge := 0; Blind.solarPanelVoltage := 0;
                 Blind.interiorTemperature := 22.4%float;
                 Blind.batteryTemperature := 21.2%float;
                 Blind.illuminance := 5.0%float |})
    as (st1 & events & H & _ & Hl & Hv & _).
  - vm_compute. reflexivity.
  - vm_compute. discriminate.
  - exists st1, events. auto.
Defined.

End TelemetryProperties.

(** ** The registry of devices *)

Section RegistryProperties.
Import Registry.







End RegistryProperties.

(** ** From an object path to the available addresses *)

Section AdapterPaths.
Import Adapter.

Lemma lastSegment_from_plain current r :
  ~ In "/"%char (list_ascii_of_string r) -> Text.lastSegment_from current r = current.
Proof.
  revert current. induction r as [| c r IH]; intros current H; [reflexivity |].
  cbn [Text.lastSegment_from]. cbn in H.
  destruct (Ascii.eqb_spec c "/") as [-> | _]; [tauto |].
  apply IH. tauto.
Qed.

Lemma lastSegment_from_app prefix segment : forall current,
  ~ In "/"%char (list_ascii_of_string segment) ->
  Text.lastSegment_from current (prefix +:+ String "/" segment) = segment.
Proof.
  induction prefix as [| c prefix IH]; intros current H.
  - change ("" +:+ String "/" segment) with (String "/" segment).
    cbn [Text.lastSegment_from]. rewrite Ascii.eqb_refl.
    now apply lastSegment_from_plain.
  - rewrite string_app_cons. cbn [Text.lastSegment_from].
    destruct (Ascii.eqb c "/"); now apply IH.
Qed.

Lemma replaceAll_keeps_out a b x s :
  x <> b -> ~ In x (list_ascii_of_string s) ->
  ~ In x (list_ascii_of_string (Text.replaceAll a b s)).
Proof.
  intros Hb. induction s as [| c s IH]; intros H; [exact H |].
  cbn [Text.replaceAll list_ascii_of_string In] in *.
  intros [Hx | Hx]; [| tauto].
  destruct (Ascii.eqb c a); [congruence | tauto].
Qed.

Lemma addAvailable_In s id : In id (_availableDeviceIds (fst (_addAvailableDevice s id))).
Proof.
  unfold _addAvailableDevice.
  destruct (includes (_availableDeviceIds s) id) eqn:E; cbn.
  - now apply includes_In.
  - apply in_or_app. right. now left.
Qed.

(** When the bus announces the device object of an address (without
    underscore or slash) under any parent path, the address is among the
    adapter's available addresses afterwards, and [reconnectDevice] sees
    it as still available. *)
Theorem announced_device_is_available s prefix uuid :
  _isInitialized s = true ->
  ~ In "_"%char (list_ascii_of_string uuid) ->
  ~ In "/"%char (list_ascii_of_string uuid) ->
  let s' := fst (_onDBusInterfacesAdded s
                   (prefix +:+ "/" +:+ serializeUuidToDeviceId uuid)
                   ["org.bluez.Device1"]) in
  exists uuids,
    availableDeviceUuids s' = inr uuids
    /\ In uuid uuids
    /\ forall manager,
         DeviceManager.adapter manager = Some uuids ->
         DeviceManager.stillAvailable manager uuid = true.
Proof.
  intros Hinit Hu Hs. cbv zeta.
  unfold _onDBusInterfacesAdded.
  change (includes ["org.bluez.Device1"] "org.bluez.Device1") with true. cbv iota.
  assert (Hseg : Text.lastSegment (prefix +:+ "/" +:+ serializeUuidToDeviceId uuid)
                 = serializeUuidToDeviceId uuid).
  { unfold Text.lastSegment.
    change ("/" +:+ serializeUuidToDeviceId uuid)
      with (String "/" (serializeUuidToDeviceId uuid)).
    apply lastSegment_from_app. unfold serializeUuidToDeviceId.
    change ("dev_" +:+ Text.replaceAll ":" "_" uuid)
      with (String "d" (String "e" (String "v" (String "_" (Text.replaceAll ":" "_" uuid))))).
    cbn [list_ascii_of_string In]. intros [H | [H | [H | [H | H]]]]; try discriminate H.
    revert H. apply replaceAll_keeps_out; [discriminate | exact Hs]. }
  rewrite Hseg.
  set (s' := fst (_addAvailableDevice s (serializeUuidToDeviceId uuid))).
  assert (Hi : _isInitialized s' = true).
  { unfold s', _addAvailableDevice. destruct (negb _); cbn; exact Hinit. }
  assert (Hin : In uuid (map deserializeDeviceIdToUuid (_availableDeviceIds s'))).
  { rewrite <- (uuid_of_device_id uuid Hu) at 1. apply in_map. apply addAvailable_In. }
  exists (map deserializeDeviceIdToUuid (_availableDeviceIds s')).
  split; [unfold availableDeviceUuids; now rewrite Hi |].
  split; [exact Hin |].
  intros manager Hm. unfold DeviceManager.stillAvailable. rewrite Hm.
  apply existsb_exists. exists uuid. split; [exact Hin | apply String.eqb_refl].
Qed.

Lemma announced_device_is_available_witness :
  exists uuids,
    availableDeviceUuids
      (fst (_onDBusInterfacesAdded
              {| _availableDeviceIds := []; _devices := ∅; _isInitialized := true |}
              ("/org/bluez/hci0" +:+ "/" +:+ serializeUuidToDeviceId "AA:BB:CC:DD:EE:FF")
              ["org.bluez.Device1"]))
    = inr uuids
    /\ In "AA:BB:CC:DD:EE:FF" uuids.
Proof.
  destruct (announced_device_is_available
              {| _availableDeviceIds := []; _devices := ∅; _isInitialized := true |}
              "/org/bluez/hci0" "AA:BB:CC:DD:EE:FF")
    as (uuids & H1 & H2 & _).
  - reflexivity.
  - vm_compute. intuition discriminate.
  - vm_compute. intuition discriminate.
  - exists uuids. auto.
Defined.

End AdapterPaths.

(** ** Values on the tilt and state topics *)

Section PublishedValues.
Import BlindMqtt Application.

(** Whatever number an angle-changed event carries, a value posted on the
    tilt topic is 0, 200 or strictly between 10 and 190, and the text posted
    with it on the state topic is "closed" exactly when that value is 0 or
    200. *)
Theorem published_tilt_values app address angle :
  _onBlindAngleChanged app address angle = []
  \/ exists blindConfig tilt,
       _onBlindAngleChanged app address angle
       = [json_post (getBlindTiltStatusTopic blindConfig) tilt;
          post (getBlindStateTopic blindConfig)
               (if bool_decide (tilt = 0 \/ tilt = 200) then "closed" else "open")]
       /\ (tilt = 0 \/ tilt = 200 \/ 10 < tilt < 190).
Proof.
  unfold _onBlindAngleChanged.
  destruct (_getBlindConfig app address) as [blindConfig |]; [| now left].
  cbv zeta. unfold _publishNumberMessage, _publishStringMessage.
  destruct (isMqttConnected app).
  - right. exists blindConfig, (roundAngle angle).
    assert (Hr : roundAngle angle = 0 \/ roundAngle angle = 200 \/ 10 < roundAngle angle < 190).
    { unfold roundAngle.
      destruct (Z.leb_spec 190 angle); [auto |].
      destruct (Z.leb_spec angle 10); [auto |]. right. right. lia. }
    split; [| exact Hr].
    destruct (Z.leb_spec (roundAngle angle) 10), (Z.leb_spec 190 (roundAngle angle));
      cbn [orb List.app];
      (rewrite bool_decide_eq_true_2 by lia) || (rewrite bool_decide_eq_false_2 by lia);
      reflexivity.
  - left. now destruct ((roundAngle angle <=? 10) || (190 <=? roundAngle angle)).
Qed.

End PublishedValues.

(** ** Further instances *)

Lemma device_added_once_witness :
  snd (Adapter._addAvailableDevice
         {| Adapter._availableDeviceIds := []; Adapter._devices := ∅;
            Adapter._isInitialized := true |}
         "dev_AA_BB_CC_DD_EE_FF") <> [].
Proof.
  apply (proj1 (device_added_once
                  {| Adapter._availableDeviceIds := []; Adapter._devices := ∅;
                     Adapter._isInitialized := true |}
                  "dev_AA_BB_CC_DD_EE_FF")).
  intros [].
Defined.


Lemma decoders_fail_iff_short_witness :
  Blind.parseBlindSensors [x55; x00; xc4] = None
  /\ Blind.parseBlindStatus [x01; x00; x02] = None.
Proof.
  split.
  - apply (proj1 (decoders_fail_iff_short [x55; x00; xc4])). cbn. lia.
  - apply (proj2 (decoders_fail_iff_short [x01; x00; x02])). cbn. lia.
Defined.
